(** * DrawingModal: the signature capture component of XMLForm-renderer

    A shallow embedding of the React Native component [DrawingModal]
    (touch-driven stroke recorder, canvas repaint effect, clear and save
    controls) and the properties of its behaviour.

    Conventions of the embedding:
    - JavaScript numbers are IEEE doubles: [float].
    - [null] is [None]; an object or array is its content.
    - The calls the component makes on the 2D context of the canvas are
      first-class values ([CanvasCall]); the platform that executes them
      (react-native-canvas) is the interface [Raster].
    - A closure created during a render is a Rocq closure over the values the
      render bound; [setX] calls made by a handler are the [Update]s it
      enqueues, which React applies before the next render.
    - A thrown JavaScript exception is [Thrown]. *)

From Stdlib Require Import List String Bool.
From Stdlib Require Import Floats.PrimFloat.
Import ListNotations.
Open Scope string_scope.
Open Scope list_scope.

Set Implicit Arguments.

(** ** JavaScript values *)

Inductive JsError : Type :=
| TypeError (message : string)
| HostError (message : string).

Inductive outcome (A : Type) : Type :=
| Returned (a : A)
| Thrown (e : JsError).

Arguments Returned {A} a.
Arguments Thrown {A} e.

Definition bind {A B : Type} (m : outcome A) (k : A -> outcome B) : outcome B :=
  match m with
  | Returned a => k a
  | Thrown e => Thrown e
  end.

Notation "x <- m ;; k" := (bind m (fun x => k))
  (at level 61, m at next level, right associativity).

(** ** Data model: [{ x, y }] and [{ points, color, width }] *)

Record Point : Type := { x : float; y : float }.

Record Path : Type := {
  points : list Point;
  color : string;
  width : float
}.

(** [evt.nativeEvent] as far as the handlers read it. *)
Record NativeEvent : Type := { locationX : float; locationY : float }.

(** ** The 2D context *)

(** The property writes and method calls that [drawPaths] performs on
    [ctx], in the arguments it passes. *)
Inductive CanvasCall : Type :=
| SetFillStyle (c : string)
| FillRect (rx ry rw rh : float)
| BeginPath
| SetStrokeStyle (c : string)
| SetLineWidth (w : float)
| SetLineCap (cap : string)
| SetLineJoin (join : string)
| MoveTo (px py : float)
| LineTo (px py : float)
| Stroke.

(** The pen a [stroke()] call paints with. *)
Record Pen : Type := {
  pen_color : string;
  pen_width : float;
  pen_cap : string;
  pen_join : string
}.

(** The platform behind the context: the pixel surface, the two painting
    primitives the component reaches, and the encoder behind [toDataURL].
    The laws are those of an opaque fill under the default compositing
    state, which the component never changes: painting keeps the size of
    the surface, and filling the whole surface with the background colour
    leaves nothing of what was there. *)
Class Raster : Type := {
  Pixels : Type;
  px_width : Pixels -> float;
  px_height : Pixels -> float;
  fill_rect : string -> float -> float -> float -> float -> Pixels -> Pixels;
  stroke_path : Pen -> list (list Point) -> Pixels -> Pixels;
  encode : Pixels -> outcome string;
  fill_rect_width : forall c a b w h p, px_width (fill_rect c a b w h p) = px_width p;
  fill_rect_height : forall c a b w h p, px_height (fill_rect c a b w h p) = px_height p;
  stroke_path_width : forall pen sp p, px_width (stroke_path pen sp p) = px_width p;
  stroke_path_height : forall pen sp p, px_height (stroke_path pen sp p) = px_height p;
  fill_rect_covers : forall p q,
    px_width p = px_width q -> px_height p = px_height q ->
    fill_rect "white" 0 0 (px_width p) (px_height p) p
    = fill_rect "white" 0 0 (px_width q) (px_height q) q
}.

Section Component.

Context {platform : Raster}.

(** The canvas with its 2D context: the drawing state the component writes,
    the current path, and the surface. *)
Record Canvas : Type := {
  fillStyle : string;
  strokeStyle : string;
  lineWidth : float;
  lineCap : string;
  lineJoin : string;
  subpaths : list (list Point);
  pixels : Pixels
}.

Definition canvas_width (canvas : Canvas) : float := px_width (pixels canvas).
Definition canvas_height (canvas : Canvas) : float := px_height (pixels canvas).

(** [lineTo] extends the last subpath; on an empty path it starts one. *)
Fixpoint line_to (p : Point) (sp : list (list Point)) : list (list Point) :=
  match sp with
  | [] => [[p]]
  | [s] => [s ++ [p]]
  | s :: rest => s :: line_to p rest
  end.

Definition the_pen (ctx : Canvas) : Pen :=
  {| pen_color := strokeStyle ctx; pen_width := lineWidth ctx;
     pen_cap := lineCap ctx; pen_join := lineJoin ctx |}.

Definition call (c : CanvasCall) (ctx : Canvas) : Canvas :=
  match c with
  | SetFillStyle v =>
      {| fillStyle := v; strokeStyle := strokeStyle ctx; lineWidth := lineWidth ctx;
         lineCap := lineCap ctx; lineJoin := lineJoin ctx;
         subpaths := subpaths ctx; pixels := pixels ctx |}
  | FillRect rx ry rw rh =>
      {| fillStyle := fillStyle ctx; strokeStyle := strokeStyle ctx;
         lineWidth := lineWidth ctx; lineCap := lineCap ctx; lineJoin := lineJoin ctx;
         subpaths := subpaths ctx;
         pixels := fill_rect (fillStyle ctx) rx ry rw rh (pixels ctx) |}
  | BeginPath =>
      {| fillStyle := fillStyle ctx; strokeStyle := strokeStyle ctx;
         lineWidth := lineWidth ctx; lineCap := lineCap ctx; lineJoin := lineJoin ctx;
         subpaths := []; pixels := pixels ctx |}
  | SetStrokeStyle v =>
      {| fillStyle := fillStyle ctx; strokeStyle := v; lineWidth := lineWidth ctx;
         lineCap := lineCap ctx; lineJoin := lineJoin ctx;
         subpaths := subpaths ctx; pixels := pixels ctx |}
  | SetLineWidth v =>
      {| fillStyle := fillStyle ctx; strokeStyle := strokeStyle ctx; lineWidth := v;
         lineCap := lineCap ctx; lineJoin := lineJoin ctx;
         subpaths := subpaths ctx; pixels := pixels ctx |}
  | SetLineCap v =>
      {| fillStyle := fillStyle ctx; strokeStyle := strokeStyle ctx;
         lineWidth := lineWidth ctx; lineCap := v; lineJoin := lineJoin ctx;
         subpaths := subpaths ctx; pixels := pixels ctx |}
  | SetLineJoin v =>
      {| fillStyle := fillStyle ctx; strokeStyle := strokeStyle ctx;
         lineWidth := lineWidth ctx; lineCap := lineCap ctx; lineJoin := v;
         subpaths := subpaths ctx; pixels := pixels ctx |}
  | MoveTo px py =>
      {| fillStyle := fillStyle ctx; strokeStyle := strokeStyle ctx;
         lineWidth := lineWidth ctx; lineCap := lineCap ctx; lineJoin := lineJoin ctx;
         subpaths := subpaths ctx ++ [[ {| x := px; y := py |} ]];
         pixels := pixels ctx |}
  | LineTo px py =>
      {| fillStyle := fillStyle ctx; strokeStyle := strokeStyle ctx;
         lineWidth := lineWidth ctx; lineCap := lineCap ctx; lineJoin := lineJoin ctx;
         subpaths := line_to {| x := px; y := py |} (subpaths ctx);
         pixels := pixels ctx |}
  | Stroke =>
      {| fillStyle := fillStyle ctx; strokeStyle := strokeStyle ctx;
         lineWidth := lineWidth ctx; lineCap := lineCap ctx; lineJoin := lineJoin ctx;
         subpaths := subpaths ctx;
         pixels := stroke_path (the_pen ctx) (subpaths ctx) (pixels ctx) |}
  end.

Definition calls (cs : list CanvasCall) (ctx : Canvas) : Canvas :=
  fold_left (fun acc c => call c acc) cs ctx.

(** ** drawPaths *)

(** [array.forEach((item, index) => ...)] for a callback that issues calls. *)
Fixpoint forEach_from {A : Type} (index : nat) (f : A -> nat -> list CanvasCall)
    (items : list A) : list CanvasCall :=
  match items with
  | [] => []
  | item :: rest => f item index ++ forEach_from (S index) f rest
  end.

Definition forEach {A : Type} (items : list A) (f : A -> nat -> list CanvasCall)
    : list CanvasCall :=
  forEach_from 0 f items.

(** The body shared by the loop over [paths] and the block for
    [currentPath]. *)
Definition draw_one (path : Path) : list CanvasCall :=
  [ BeginPath;
    SetStrokeStyle (color path);
    SetLineWidth (width path);
    SetLineCap "round";
    SetLineJoin "round" ]
  ++ forEach (points path) (fun point index =>
       if Nat.eqb index 0
       then [MoveTo (x point) (y point)]
       else [LineTo (x point) (y point)])
  ++ [ Stroke ].

(** The calls of one run of [drawPaths] on a mounted canvas. *)
Definition drawPaths_calls (canvas : Canvas) (paths : list Path)
    (currentPath : option Path) : list CanvasCall :=
  [ SetFillStyle "white";
    FillRect 0 0 (canvas_width canvas) (canvas_height canvas) ]
  ++ forEach paths (fun path _ => draw_one path)
  ++ match currentPath with
     | Some path => draw_one path
     | None => []
     end.

(** ** State of the component *)

(** A [setPaths] or [setCurrentPath] call: with a value, or with a function
    of the state at the time React applies it. *)
Inductive Update : Type :=
| SetPaths (value : list Path)
| SetPathsWith (updater : list Path -> list Path)
| SetCurrentPath (value : option Path)
| SetCurrentPathWith (updater : option Path -> outcome (option Path)).

(** The configuration handed to [PanResponder.create]: each handler is the
    list of updates it enqueues.  No [onPanResponderTerminate] is given. *)
Record PanHandlers : Type := {
  onStartShouldSetPanResponder : bool;
  onMoveShouldSetPanResponder : bool;
  onPanResponderGrant : NativeEvent -> list Update;
  onPanResponderMove : NativeEvent -> list Update;
  onPanResponderRelease : list Update;
  onPanResponderTerminate : option (list Update)
}.

(** The hook cells of one mounted [DrawingModal]: [canvasRef.current], the
    two [useState] cells, and the cell of the [useRef] that keeps the pan
    responder ([None] until the first render has filled it). *)
Record Hooks : Type := {
  canvasRef : option Canvas;
  paths : list Path;
  currentPath : option Path;
  panResponder : option PanHandlers
}.

Definition with_canvasRef (v : option Canvas) (h : Hooks) : Hooks :=
  {| canvasRef := v; paths := paths h; currentPath := currentPath h;
     panResponder := panResponder h |}.

Definition with_paths (v : list Path) (h : Hooks) : Hooks :=
  {| canvasRef := canvasRef h; paths := v; currentPath := currentPath h;
     panResponder := panResponder h |}.

Definition with_currentPath (v : option Path) (h : Hooks) : Hooks :=
  {| canvasRef := canvasRef h; paths := paths h; currentPath := v;
     panResponder := panResponder h |}.

Definition with_panResponder (v : option PanHandlers) (h : Hooks) : Hooks :=
  {| canvasRef := canvasRef h; paths := paths h; currentPath := currentPath h;
     panResponder := v |}.

(** [useRef(null)], [useState([])], [useState(null)] before the first
    render. *)
Definition initial_hooks : Hooks :=
  {| canvasRef := None; paths := []; currentPath := None; panResponder := None |}.

(** [useRef(initialValue).current]: the argument is evaluated at every
    render, the cell keeps the one of the first. *)
Definition useRef {A : Type} (cell : option A) (initialValue : A) : A :=
  match cell with
  | Some kept => kept
  | None => initialValue
  end.

(** [PanResponder.create({...})] evaluated in a render whose [currentPath]
    is the argument: the handlers are closures of that render, and
    [onPanResponderRelease] reads the [currentPath] it closed over. *)
Definition PanResponder_create (currentPath : option Path) : PanHandlers :=
  {| onStartShouldSetPanResponder := true;
     onMoveShouldSetPanResponder := true;
     onPanResponderGrant := fun evt =>
       [ SetCurrentPath (Some
           {| points := [ {| x := locationX evt; y := locationY evt |} ];
              color := "black";
              width := 2 |}) ];
     onPanResponderMove := fun evt =>
       [ SetCurrentPathWith (fun current =>
           match current with
           | Some cur =>
               Returned (Some
                 {| points := points cur
                              ++ [ {| x := locationX evt; y := locationY evt |} ];
                    color := color cur;
                    width := width cur |})
           | None => Thrown (TypeError "Cannot read property 'points' of null")
           end) ];
     onPanResponderRelease :=
       match currentPath with
       | Some path =>
           [ SetPathsWith (fun prev => prev ++ [path]); SetCurrentPath None ]
       | None => []
       end;
     onPanResponderTerminate := None |}.

(** The hook calls of the function body of the component. *)
Definition render (h : Hooks) : Hooks :=
  with_panResponder
    (Some (useRef (panResponder h) (PanResponder_create (currentPath h)))) h.

(** The effect of [useEffect(..., [paths, currentPath])]: [drawPaths] of the
    render it belongs to. *)
Definition drawPaths (h : Hooks) : Hooks :=
  match canvasRef h with
  | Some canvas =>
      with_canvasRef
        (Some (calls (drawPaths_calls canvas (paths h) (currentPath h)) canvas)) h
  | None => h
  end.

Definition clearCanvas : list Update :=
  [ SetPaths []; SetCurrentPath None ].

(** What leaves the component: the two callbacks of its props, the console
    and the alert. *)
Inductive Output : Type :=
| OnSave (dataURL : string)
| OnClose
| ConsoleError (message : string) (error : JsError)
| AlertAlert (title message : string).

(** The callbacks of the props, as far as the component sees them: they
    return or throw. *)
Record Props : Type := {
  onSave : string -> outcome unit;
  onClose : unit -> outcome unit
}.

Definition toDataURL (canvas : Canvas) : outcome string := encode (pixels canvas).

(** [saveDrawing]: the [try] block covers the encoder and both callbacks. *)
Definition saveDrawing (props : Props) (h : Hooks) : list Output :=
  match canvasRef h with
  | Some canvas =>
      let catch error :=
        [ ConsoleError "Error saving drawing:" error;
          AlertAlert "Error" "Could not save drawing" ] in
      match toDataURL canvas with
      | Thrown error => catch error
      | Returned dataURL =>
          OnSave dataURL ::
          match onSave props dataURL with
          | Thrown error => catch error
          | Returned _ =>
              OnClose ::
              match onClose props tt with
              | Thrown error => catch error
              | Returned _ => []
              end
          end
      end
  | None => []
  end.

(** ** Events and the update cycle *)

(** [Object.is] on the [currentPath] cell: every object the component
    stores is freshly built, so only [null] is the same value as [null]. *)
Definition same_value (old new : option Path) : bool :=
  match new with
  | None => match old with None => true | Some _ => false end
  | Some _ => false
  end.

(** One queued update applied to the cells; the flag records whether a cell
    listed in the dependencies of the effect changed.  Every array given to
    [setPaths] is freshly built. *)
Definition apply_update (u : Update) (s : Hooks * bool) : outcome (Hooks * bool) :=
  let (h, changed) := s in
  match u with
  | SetPaths value => Returned (with_paths value h, true)
  | SetPathsWith updater => Returned (with_paths (updater (paths h)) h, true)
  | SetCurrentPath value =>
      Returned (with_currentPath value h,
                changed || negb (same_value (currentPath h) value))
  | SetCurrentPathWith updater =>
      value <- updater (currentPath h) ;;
      Returned (with_currentPath value h,
                changed || negb (same_value (currentPath h) value))
  end.

Fixpoint apply_updates (us : list Update) (s : Hooks * bool) : outcome (Hooks * bool) :=
  match us with
  | [] => Returned s
  | u :: rest => s' <- apply_update u s ;; apply_updates rest s'
  end.

(** After a handler: nothing happens when it enqueued nothing; otherwise
    the updates are applied, the component renders again, and the effect
    runs when one of its dependencies changed. *)
Definition flush (us : list Update) (h : Hooks) : outcome Hooks :=
  match us with
  | [] => Returned h
  | _ =>
      s <- apply_updates us (h, false) ;;
      let h' := render (fst s) in
      Returned (if snd s then drawPaths h' else h')
  end.

(** What the host delivers to the mounted component. *)
Inductive Event : Type :=
| Grant (evt : NativeEvent)
| Move (evt : NativeEvent)
| Release
| Terminate
| PressClear
| PressSave
| CanvasRef (canvas : option Canvas).

(** The updates the handler of an event enqueues. *)
Definition handler (ev : Event) (h : Hooks) : list Update :=
  match ev, panResponder h with
  | Grant evt, Some responder => onPanResponderGrant responder evt
  | Move evt, Some responder => onPanResponderMove responder evt
  | Release, Some responder => onPanResponderRelease responder
  | Terminate, Some responder =>
      match onPanResponderTerminate responder with
      | Some us => us
      | None => []
      end
  | PressClear, _ => clearCanvas
  | _, _ => []
  end.

Definition emitted (props : Props) (ev : Event) (h : Hooks) : list Output :=
  match ev with
  | PressSave => saveDrawing props h
  | _ => []
  end.

Definition step (ev : Event) (h : Hooks) : outcome Hooks :=
  match ev with
  | CanvasRef canvas => Returned (with_canvasRef canvas h)
  | _ => flush (handler ev h) h
  end.

Fixpoint run (evs : list Event) (h : Hooks) : outcome Hooks :=
  match evs with
  | [] => Returned h
  | ev :: rest => h' <- step ev h ;; run rest h'
  end.

(** Mounting: the first render, the ref of the canvas (or [null] while the
    modal shows nothing), and the first run of the effect. *)
Definition mount (canvas : option Canvas) : Hooks :=
  drawPaths (with_canvasRef canvas (render initial_hooks)).

Inductive reachable : Hooks -> Prop :=
| reachable_mount : forall canvas, reachable (mount canvas)
| reachable_step : forall ev h h',
    reachable h -> step ev h = Returned h' -> reachable h'.

(** ** The repaint as the specification words it *)

(** A connected polyline: move to the first point, straight segments to
    each subsequent point.  It is one subpath holding the points in order;
    a stroke without points draws nothing. *)
Definition spec_polyline (pts : list Point) : list (list Point) :=
  match pts with
  | [] => []
  | _ :: _ => [pts]
  end.

(** The stroke's colour and width, round line caps and joins. *)
Definition spec_pen (stroke : Path) : Pen :=
  {| pen_color := color stroke; pen_width := width stroke;
     pen_cap := "round"; pen_join := "round" |}.

Definition spec_paint (surface : Pixels) (stroke : Path) : Pixels :=
  stroke_path (spec_pen stroke) (spec_polyline (points stroke)) surface.

(** The entire surface cleared to the fixed background colour. *)
Definition spec_blank (surface : Pixels) : Pixels :=
  fill_rect "white" 0 0 (px_width surface) (px_height surface) surface.

(** Clear, then the StrokeSet in insertion order, then the ActiveStroke if
    present. *)
Definition spec_repaint (strokeSet : list Path) (activeStroke : option Path)
    (surface : Pixels) : Pixels :=
  let committed := fold_left spec_paint strokeSet (spec_blank surface) in
  match activeStroke with
  | Some stroke => spec_paint committed stroke
  | None => committed
  end.

(** ** Properties of states *)

(** The objects the handlers build: the point of an event, the stroke a
    grant begins, and a stroke with the points of further events added. *)
Definition point_of (evt : NativeEvent) : Point :=
  {| x := locationX evt; y := locationY evt |}.

Definition begun (evt : NativeEvent) : Path :=
  {| points := [point_of evt]; color := "black"; width := 2 |}.

Definition extended (stroke : Path) (evts : list NativeEvent) : Path :=
  {| points := points stroke ++ map point_of evts;
     color := color stroke; width := width stroke |}.

(** The fixed style of the strokes: ['black'], width 2. *)
Definition fixed_style (stroke : Path) : Prop :=
  color stroke = "black" /\ width stroke = 2%float.

Definition styled (h : Hooks) : Prop :=
  Forall fixed_style (paths h)
  /\ (forall stroke, currentPath h = Some stroke -> fixed_style stroke).

Definition is_some {A : Type} (o : option A) : bool :=
  match o with
  | Some _ => true
  | None => false
  end.

(** The order of gesture events: a move is delivered only while a gesture
    is in progress, that is after a grant and before the release or
    termination that follows it; pressing Clear ends what was in progress. *)
Fixpoint ordered (recording : bool) (evs : list Event) : bool :=
  match evs with
  | [] => true
  | Grant _ :: rest => ordered true rest
  | Move _ :: rest => recording && ordered recording rest
  | Release :: rest => ordered false rest
  | Terminate :: rest => ordered false rest
  | PressClear :: rest => ordered false rest
  | PressSave :: rest => ordered recording rest
  | CanvasRef _ :: rest => ordered recording rest
  end.

(** How an attempt to encode fails, if it does: [Some None] when the
    surface is unavailable, [Some (Some error)] when the encoder throws. *)
Definition encoding_failure (h : Hooks) : option (option JsError) :=
  match canvasRef h with
  | None => Some None
  | Some canvas =>
      match toDataURL canvas with
      | Thrown error => Some (Some error)
      | Returned _ => None
      end
  end.

End Component.

(** ** A concrete platform *)

(** A surface of one pixel, [0,1) x [0,1), of which the colour is kept: a
    fill paints it when the rectangle contains it, a stroke when one of its
    points lies on it, and the encoder rejects a surface nothing was painted
    on. *)
Definition covers_pixel (rx ry rw rh : float) : bool :=
  ((rx <=? 0) && (ry <=? 0) && (1 <=? rx + rw) && (1 <=? ry + rh))%float.

Definition on_pixel (p : Point) : bool :=
  ((0 <=? x p) && (x p <? 1) && (0 <=? y p) && (y p <? 1))%float.

Definition one_pixel : Raster :=
  {| Pixels := string;
     px_width := fun _ => 1%float;
     px_height := fun _ => 1%float;
     fill_rect := fun c rx ry rw rh p => if covers_pixel rx ry rw rh then c else p;
     stroke_path := fun pen sp p =>
       if existsb (existsb on_pixel) sp then pen_color pen else p;
     encode := fun p =>
       if String.eqb p EmptyString then Thrown (HostError "nothing to encode")
       else Returned ("data:," ++ p)%string;
     fill_rect_width := fun _ _ _ _ _ _ => eq_refl;
     fill_rect_height := fun _ _ _ _ _ _ => eq_refl;
     stroke_path_width := fun _ _ _ => eq_refl;
     stroke_path_height := fun _ _ _ => eq_refl;
     fill_rect_covers := fun _ _ _ _ => eq_refl |}.

(** A canvas as the platform hands it over: default drawing state, empty
    path, nothing painted. *)
Definition fresh_canvas : @Canvas one_pixel :=
  @Build_Canvas one_pixel "#000000" "#000000" 1 "butt" "miter" [] EmptyString.

(** Callbacks that return. *)
Definition quiet_props : Props :=
  {| onSave := fun _ => Returned tt; onClose := fun _ => Returned tt |}.

Definition touch (a b : float) : NativeEvent :=
  {| locationX := a; locationY := b |}.

(** A component just mounted on that canvas, and one whose canvas was
    replaced by an unpainted one afterwards. *)
Definition opened : @Hooks one_pixel := mount (Some fresh_canvas).

Definition remounted : @Hooks one_pixel :=
  with_canvasRef (Some fresh_canvas) (mount None).

(** A state with one committed stroke and a stroke in progress. *)
Definition drawing : @Hooks one_pixel :=
  {| canvasRef := Some fresh_canvas;
     paths := [ extended (begun (touch 0.5 0.5)) [touch 3 4] ];
     currentPath := Some (begun (touch 7 7));
     panResponder := Some (PanResponder_create None) |}.

(** ** Further notions on the states of the component *)

(** The mounted surface shows the state: it is what a repaint of the
    present StrokeSet and ActiveStroke leaves on a surface of its size. *)
Definition up_to_date {platform : Raster} (h : Hooks) : Prop :=
  forall canvas,
    canvasRef h = Some canvas ->
    pixels canvas = spec_repaint (paths h) (currentPath h) (pixels canvas).

(** The events by which the host replaces the canvas behind the ref. *)
Definition swaps_canvas {platform : Raster} (ev : Event) : bool :=
  match ev with
  | CanvasRef _ => true
  | _ => false
  end.

(** A complete gesture: the grant, the moves, the release. *)
Definition gesture {platform : Raster} (evt : NativeEvent)
    (evts : list NativeEvent) : list Event :=
  Grant evt :: map Move evts ++ [Release].

(** * XMLFormRenderer: the form that opens the DrawingModal (App.js) *)

(** ** JavaScript objects with string keys *)

(** The own properties of a plain object, by key.  The order of the keys
    is not used. *)
Definition Obj (V : Type) : Type := list (string * V).

Fixpoint obj_get {V : Type} (k : string) (o : Obj V) : option V :=
  match o with
  | [] => None
  | (k', v) :: rest => if String.eqb k' k then Some v else obj_get k rest
  end.

(** The own property [k] defined or overwritten with [v]. *)
Fixpoint obj_set {V : Type} (k : string) (v : V) (o : Obj V) : Obj V :=
  match o with
  | [] => [(k, v)]
  | (k', v') :: rest =>
      if String.eqb k' k then (k', v) :: rest else (k', v') :: obj_set k v rest
  end.


(** The members every plain object inherits from [Object.prototype]. *)
Definition Object_prototype : list string :=
  [ "constructor"; "hasOwnProperty"; "isPrototypeOf"; "propertyIsEnumerable";
    "toLocaleString"; "toString"; "valueOf"; "__proto__";
    "__defineGetter__"; "__defineSetter__";
    "__lookupGetter__"; "__lookupSetter__" ].

(** What reading [o[k]] gives: the own property, else the member of
    [Object.prototype] of that name (a function or object, never a string
    or boolean), else [undefined]. *)
Inductive Slot (V : Type) : Type :=
| Own (v : V)
| Inherited (name : string)
| Undefined.

Arguments Own {V} v.
Arguments Inherited {V} name.
Arguments Undefined {V}.

Definition obj_read {V : Type} (k : string) (o : Obj V) : Slot V :=
  match obj_get k o with
  | Some v => Own v
  | None => if existsb (String.eqb k) Object_prototype then Inherited k else Undefined
  end.

(** The key of [o[v]] for a value that is a string or [undefined]. *)
Definition key_of (v : option string) : string :=
  match v with
  | Some s => s
  | None => "undefined"
  end.

(** Truthiness of a value that is a string, [null] or [undefined]. *)
Definition truthy (v : option string) : bool :=
  match v with
  | Some s => negb (String.eqb s EmptyString)
  | None => false
  end.

(** [v === 's'] for such a value. *)
Definition equals (v : option string) (s : string) : bool :=
  match v with
  | Some t => String.eqb t s
  | None => false
  end.

(** [a === b] for a value read from an object and such a value. *)
Definition same (a : Slot string) (b : option string) : bool :=
  match a, b with
  | Own s, Some t => String.eqb s t
  | Undefined, None => true
  | _, _ => false
  end.

(** [list.includes(v)] *)
Definition includes (l : list string) (v : option string) : bool :=
  match v with
  | Some s => existsb (String.eqb s) l
  | None => false
  end.

(** [items.reduce(f, acc)] for a callback that may throw. *)
Fixpoint reduce {A B : Type} (f : B -> A -> outcome B) (items : list A) (acc : B)
    : outcome B :=
  match items with
  | [] => Returned acc
  | item :: rest => acc' <- f acc item ;; reduce f rest acc'
  end.

(** The double quote, for the string constants that contain it. *)
Definition dq : string := String (Ascii.ascii_of_nat 34) EmptyString.

(** ** The parsed XML, as the code reads it *)

(** [field.$]: the attributes read; an absent attribute is [undefined]. *)
Record Attrs : Type := {
  attr_id : option string;
  attr_type : option string;
  attr_label : option string;
  attr_required : option string
}.

(** [option.$] and [option._] of a child of a radio field. *)
Record OptionAttrs : Type := { attr_value : option string }.

Record OptionNode : Type := {
  option_dollar : option OptionAttrs;
  option_text : option string
}.

(** An element of [result.form.field]: its [$] and its [option] children,
    each [undefined] when the element has none (a child that is only text
    has neither). *)
Record Field : Type := {
  dollar : option Attrs;
  option_ : option (list OptionNode)
}.

(** [field.$] on the way to one of its properties. *)
Definition dollar_of (field : Field) : outcome Attrs :=
  match dollar field with
  | Some attrs => Returned attrs
  | None => Thrown (TypeError "Cannot read property of undefined")
  end.

(** What [parseString] hands to its callback: an error, or a result of
    which the code reads [result?.form?.field]. *)
Inductive Parse : Type :=
| ParseError
| Parsed (form_field : option (list Field)).

Definition DEFAULT_XML_DATA : string :=
  String.concat dq
    [ "
<form>
  <field id=";
      "name";
      " type=";
      "text";
      " label=";
      "Full Name";
      " required=";
      "true";
      " />
  <field id=";
      "dob";
      " type=";
      "datetime";
      " label=";
      "Date of Birth";
      " required=";
      "true";
      " />
  <field id=";
      "gender";
      " type=";
      "radio";
      " label=";
      "Gender";
      " required=";
      "true";
      ">
    <option value=";
      "male";
      ">Male</option>
    <option value=";
      "female";
      ">Female</option>
    <option value=";
      "other";
      ">Other</option>
  </field>
  <field id=";
      "signature";
      " type=";
      "drawing";
      " label=";
      "Signature";
      " required=";
      "true";
      " />
</form>
" ].

Definition validFieldTypes : list string := [ "text"; "datetime"; "radio"; "drawing" ].

Definition invalid_types_message : string :=
  String.concat dq
    [ "Invalid field types: <span class=";
      "math-inline";
      ">{invalidFields.map(f => f.</span>.type).join(', ')}" ].

Definition required_message : string :=
  String.concat dq
    [ "<span class="; "math-inline"; ">{field.</span>.label} is required" ].

(** ** State of XMLFormRenderer *)

(** The function kept in the [formikSetFieldValue] cell. *)
Inductive FormikFn : Type := SetFieldValue.

Record App : Type := {
  modalVisible : bool;
  formMode : option string;
  parsedFields : list Field;
  formError : option string;
  customXML : string;
  drawingModalVisible : bool;
  currentDrawingField : option string;
  formikSetFieldValue : option FormikFn;
  signatureSaved : bool
}.

Definition initial_app : App :=
  {| modalVisible := false; formMode := None; parsedFields := [];
     formError := None; customXML := EmptyString; drawingModalVisible := false;
     currentDrawingField := None; formikSetFieldValue := None;
     signatureSaved := false |}.

Definition setModalVisible (v : bool) (s : App) : App :=
  {| modalVisible := v; formMode := formMode s; parsedFields := parsedFields s;
     formError := formError s; customXML := customXML s;
     drawingModalVisible := drawingModalVisible s;
     currentDrawingField := currentDrawingField s;
     formikSetFieldValue := formikSetFieldValue s;
     signatureSaved := signatureSaved s |}.

Definition setFormMode (v : option string) (s : App) : App :=
  {| modalVisible := modalVisible s; formMode := v; parsedFields := parsedFields s;
     formError := formError s; customXML := customXML s;
     drawingModalVisible := drawingModalVisible s;
     currentDrawingField := currentDrawingField s;
     formikSetFieldValue := formikSetFieldValue s;
     signatureSaved := signatureSaved s |}.

Definition setParsedFields (v : list Field) (s : App) : App :=
  {| modalVisible := modalVisible s; formMode := formMode s; parsedFields := v;
     formError := formError s; customXML := customXML s;
     drawingModalVisible := drawingModalVisible s;
     currentDrawingField := currentDrawingField s;
     formikSetFieldValue := formikSetFieldValue s;
     signatureSaved := signatureSaved s |}.

Definition setFormError (v : option string) (s : App) : App :=
  {| modalVisible := modalVisible s; formMode := formMode s;
     parsedFields := parsedFields s; formError := v; customXML := customXML s;
     drawingModalVisible := drawingModalVisible s;
     currentDrawingField := currentDrawingField s;
     formikSetFieldValue := formikSetFieldValue s;
     signatureSaved := signatureSaved s |}.

Definition setCustomXML (v : string) (s : App) : App :=
  {| modalVisible := modalVisible s; formMode := formMode s;
     parsedFields := parsedFields s; formError := formError s; customXML := v;
     drawingModalVisible := drawingModalVisible s;
     currentDrawingField := currentDrawingField s;
     formikSetFieldValue := formikSetFieldValue s;
     signatureSaved := signatureSaved s |}.

Definition setDrawingModalVisible (v : bool) (s : App) : App :=
  {| modalVisible := modalVisible s; formMode := formMode s;
     parsedFields := parsedFields s; formError := formError s;
     customXML := customXML s; drawingModalVisible := v;
     currentDrawingField := currentDrawingField s;
     formikSetFieldValue := formikSetFieldValue s;
     signatureSaved := signatureSaved s |}.

Definition setCurrentDrawingField (v : option string) (s : App) : App :=
  {| modalVisible := modalVisible s; formMode := formMode s;
     parsedFields := parsedFields s; formError := formError s;
     customXML := customXML s; drawingModalVisible := drawingModalVisible s;
     currentDrawingField := v;
     formikSetFieldValue := formikSetFieldValue s;
     signatureSaved := signatureSaved s |}.

Definition setFormikSetFieldValue (v : option FormikFn) (s : App) : App :=
  {| modalVisible := modalVisible s; formMode := formMode s;
     parsedFields := parsedFields s; formError := formError s;
     customXML := customXML s; drawingModalVisible := drawingModalVisible s;
     currentDrawingField := currentDrawingField s;
     formikSetFieldValue := v;
     signatureSaved := signatureSaved s |}.

Definition setSignatureSaved (v : bool) (s : App) : App :=
  {| modalVisible := modalVisible s; formMode := formMode s;
     parsedFields := parsedFields s; formError := formError s;
     customXML := customXML s; drawingModalVisible := drawingModalVisible s;
     currentDrawingField := currentDrawingField s;
     formikSetFieldValue := formikSetFieldValue s;
     signatureSaved := v |}.

(** The calls that leave XMLFormRenderer: Formik's [setFieldValue] and
    [resetForm], and the alert. *)
Inductive Call : Type :=
| CallSetFieldValue (field value : string)
| CallResetForm
| CallAlert (title message : string).

(** ** The callbacks handed to the DrawingModal *)

(** [onClose] *)
Definition drawing_onClose (s : App) : App :=
  setCurrentDrawingField None (setDrawingModalVisible false s).

(** [onSave]: the closure reads [formikSetFieldValue] and
    [currentDrawingField] of the render it belongs to. *)
Definition drawing_onSave (dataURL : string) (s : App) : App * list Call :=
  let saved :=
    match formikSetFieldValue s, currentDrawingField s with
    | Some SetFieldValue, Some field =>
        if truthy (Some field)
        then (setSignatureSaved true s, [ CallSetFieldValue field dataURL ])
        else (s, [])
    | _, _ => (s, [])
    end in
  (setCurrentDrawingField None (setDrawingModalVisible false (fst saved)),
   snd saved).

(** As the DrawingModal sees them, the two callbacks return: they make
    setter calls and one call of Formik. *)
Definition form_props : Props :=
  {| onSave := fun _ => Returned tt; onClose := fun _ => Returned tt |}.

(** What an output of the DrawingModal does to the form. *)
Definition drawing_output (o : Output) (sc : App * list Call) : App * list Call :=
  match o with
  | OnSave dataURL =>
      (fst (drawing_onSave dataURL (fst sc)),
       snd sc ++ snd (drawing_onSave dataURL (fst sc)))
  | OnClose => (drawing_onClose (fst sc), snd sc)
  | ConsoleError _ _ => sc
  | AlertAlert _ _ => sc
  end.

(** Pressing Save in the DrawingModal, seen from the form. *)
Definition press_save {platform : Raster} (h : Hooks) (s : App) : App * list Call :=
  fold_left (fun sc o => drawing_output o sc) (saveDrawing form_props h) (s, []).

(** ** parseXML *)

(** [fields.filter(field => !validFieldTypes.includes(field.$.type))] *)
Fixpoint invalid_fields (fields : list Field) : outcome (list Field) :=
  match fields with
  | [] => Returned []
  | field :: rest =>
      attrs <- dollar_of field ;;
      invalid <- invalid_fields rest ;;
      Returned (if negb (includes validFieldTypes (attr_type attrs))
                then field :: invalid
                else invalid)
  end.

(** ** What Formik is given *)


(** The rules put into the shape of the validation schema. *)
Inductive Rule : Type :=
| YupStringRequired (message : string)
| YupDateRequired (message : string).

(** The object built for [Yup.object().shape]: its own properties, and
    the Yup schema that has become its prototype, if an assignment under
    ['__proto__'] has replaced [Object.prototype]. *)
Record Shape : Type := {
  shape_own : Obj Rule;
  shape_prototype : option Rule
}.

Section Schema.

(** [o[k] = rule] on an object whose prototype is a Yup schema, given that
    schema and the own properties of [o]: the members of the schema decide
    (an own property is defined, a setter runs, or the assignment throws). *)
Variable set_under : Rule -> string -> Rule -> Obj Rule -> outcome (Obj Rule).

(** [schema[k] = rule]: under ['__proto__'] the rule, an object, becomes
    the prototype and no own property is defined. *)
Definition shape_assign (k : string) (rule : Rule) (schema : Shape) : outcome Shape :=
  if String.eqb k "__proto__"
  then Returned {| shape_own := shape_own schema; shape_prototype := Some rule |}
  else
    match shape_prototype schema with
    | None =>
        Returned {| shape_own := obj_set k rule (shape_own schema);
                    shape_prototype := None |}
    | Some prototype =>
        own <- set_under prototype k rule (shape_own schema) ;;
        Returned {| shape_own := own; shape_prototype := Some prototype |}
    end.

Definition validationSchema (parsedFields : list Field) : outcome Shape :=
  reduce
    (fun schema field =>
       attrs <- dollar_of field ;;
       if equals (attr_required attrs) "true"
       then
         let key := key_of (attr_id attrs) in
         if equals (attr_type attrs) "text"
         then shape_assign key (YupStringRequired required_message) schema
         else if equals (attr_type attrs) "datetime"
         then shape_assign key (YupDateRequired required_message) schema
         else if equals (attr_type attrs) "radio"
         then shape_assign key (YupStringRequired required_message) schema
         else if equals (attr_type attrs) "drawing"
         then shape_assign key (YupStringRequired required_message) schema
         else Returned schema
       else Returned schema)
    parsedFields {| shape_own := []; shape_prototype := None |}.

End Schema.

(** ** What a field renders *)

(** One choice of a radio field: its key, whether it shows as selected, the
    arguments of the [setFieldValue] its press makes, and its text. *)
Record Choice : Type := {
  choice_key : nat;
  choice_selected : bool;
  choice_press : option string * option string;
  choice_text : option string
}.

(** What [touched[id] && errors[id] && <Text>{errors[id]}</Text>] leaves as
    a child: nothing ([false] or [undefined]), the empty string, or the
    text element with what was read from [errors]. *)
Inductive Shown : Type :=
| ShownNothing
| ShownEmptyString
| ShownText (content : Slot string).

(** The element a field renders, with what depends on the data: key, label,
    value, the field of the handler [handleChange] returned, the child for
    the error. *)
Inductive Widget : Type :=
| TextWidget (key label : option string) (value : Slot string)
    (change : string) (error : Shown)
| DateWidget (key label : option string) (placeholder : string)
    (value : Slot string) (change : string) (error : Shown)
| RadioWidget (key label : option string) (choices : list Choice)
    (error : Shown)
| DrawingWidget (key label : option string) (button : string)
    (success : option string).

(** [touched[id] && errors[id] && <Text>{errors[id]}</Text>] *)
Definition shown_error (touched : Obj bool) (errors : Obj string)
    (id : option string) : Shown :=
  let error := obj_read (key_of id) errors in
  let shown :=
    match error with
    | Own message =>
        if truthy (Some message) then ShownText error else ShownEmptyString
    | Inherited _ => ShownText error
    | Undefined => ShownNothing
    end in
  match obj_read (key_of id) touched with
  | Own true => shown
  | Own false => ShownNothing
  | Inherited _ => shown
  | Undefined => ShownNothing
  end.

(** Formik's [handleChange] as the render calls it: given a string it
    returns the handler of that field; given [undefined] it takes it for an
    event and throws on reading it. *)
Definition handleChange (field : option string) : outcome string :=
  match field with
  | Some name => Returned name
  | None => Thrown (TypeError "Cannot read property 'persist' of undefined")
  end.

(** [field.option.map((option, index) => ...)] *)
Fixpoint choices_from (index : nat) (id : option string) (value : Slot string)
    (options : list OptionNode) : outcome (list Choice) :=
  match options with
  | [] => Returned []
  | node :: rest =>
      match option_dollar node with
      | None => Thrown (TypeError "Cannot read property 'value' of undefined")
      | Some attrs =>
          later <- choices_from (S index) id value rest ;;
          Returned ({| choice_key := index;
                       choice_selected := same value (attr_value attrs);
                       choice_press := (id, attr_value attrs);
                       choice_text := option_text node |} :: later)
      end
  end.

(** The callback of [parsedFields.map] in the render prop of Formik. *)
Definition renderField (values : Obj string) (touched : Obj bool)
    (errors : Obj string) (signatureSaved : bool) (field : Field)
    : outcome (option Widget) :=
  attrs <- dollar_of field ;;
  let id := attr_id attrs in
  let value := obj_read (key_of id) values in
  if equals (attr_type attrs) "text"
  then
    change <- handleChange id ;;
    Returned (Some (TextWidget id (attr_label attrs) value change
                      (shown_error touched errors id)))
  else if equals (attr_type attrs) "datetime"
  then
    change <- handleChange id ;;
    Returned (Some (DateWidget id (attr_label attrs) "Enter Date (YYYY-MM-DD)"
                      value change (shown_error touched errors id)))
  else if equals (attr_type attrs) "radio"
  then
    match option_ field with
    | None => Thrown (TypeError "Cannot read property 'map' of undefined")
    | Some options =>
        choices <- choices_from 0 id value options ;;
        Returned (Some (RadioWidget id (attr_label attrs) choices
                          (shown_error touched errors id)))
    end
  else if equals (attr_type attrs) "drawing"
  then Returned (Some (DrawingWidget id (attr_label attrs)
                         (if signatureSaved then "Signature Saved!"
                          else "Open Drawing Canvas")
                         (if signatureSaved
                          then Some "Signature saved successfully!"
                          else None)))
  else Returned None.

(** ** The handlers of XMLFormRenderer *)

Section Form.

(** What the component takes from the outside: [String.prototype.trim];
    [parseString] of react-native-xml2js, which calls its callback once
    before it returns and lets what the callback throws reach its caller;
    [JSON.stringify]. *)
Variable trim : string -> string.
Variable parseString : string -> Parse.
Variable JSON_stringify : Obj string -> string.

Definition parseXML (xmlInput : string) (s : App) : outcome App :=
  let s := setFormError None s in
  if String.eqb xmlInput EmptyString || String.eqb (trim xmlInput) EmptyString
  then Returned (setFormError (Some "XML input cannot be empty") s)
  else
    match parseString xmlInput with
    | ParseError => Returned (setFormError (Some "Invalid XML format") s)
    | Parsed form_field =>
        let fields := match form_field with
                      | Some fields => fields
                      | None => []
                      end in
        invalidFields <- invalid_fields fields ;;
        if Nat.ltb 0 (List.length invalidFields)
        then Returned (setFormError (Some invalid_types_message) s)
        else Returned (setModalVisible true (setParsedFields fields s))
    end.

(** [onSubmit] of Formik *)
Definition onSubmit (values : Obj string) (s : App) : App * list Call :=
  (setSignatureSaved false (setModalVisible false s),
   [ CallAlert "Form Submitted" (JSON_stringify values); CallResetForm ]).

(** What the user and the libraries do to the mounted form: the two
    buttons of the main screen, typing into and parsing the custom XML,
    closing the modal (button or back request), the effect that stores
    Formik's [setFieldValue], the button of a drawing field, the two
    callbacks of the DrawingModal, and Formik calling [onSubmit]. *)
Inductive AppEvent : Type :=
| PressFile
| PressInput
| ChangeText (text : string)
| PressParse
| PressClose
| FormikRendered
| PressDrawing (field : Field)
| DrawingClose
| DrawingSave (dataURL : string)
| Submit (values : Obj string).

Definition app_step (ev : AppEvent) (s : App) : outcome (App * list Call) :=
  match ev with
  | PressFile =>
      s' <- parseXML DEFAULT_XML_DATA s ;;
      Returned (setFormMode (Some "file") s', [])
  | PressInput =>
      Returned (setParsedFields []
                  (setModalVisible true (setFormMode (Some "custom") s)), [])
  | ChangeText text => Returned (setCustomXML text s, [])
  | PressParse => s' <- parseXML (customXML s) s ;; Returned (s', [])
  | PressClose =>
      Returned (setFormError None
                  (setCustomXML EmptyString
                     (setFormMode None
                        (setParsedFields [] (setModalVisible false s)))), [])
  | FormikRendered => Returned (setFormikSetFieldValue (Some SetFieldValue) s, [])
  | PressDrawing field =>
      attrs <- dollar_of field ;;
      Returned (setCurrentDrawingField (attr_id attrs)
                  (setDrawingModalVisible true s), [])
  | DrawingClose => Returned (drawing_onClose s, [])
  | DrawingSave dataURL => Returned (drawing_onSave dataURL s)
  | Submit values => Returned (onSubmit values s)
  end.

Fixpoint app_run (evs : list AppEvent) (s : App) : outcome (App * list Call) :=
  match evs with
  | [] => Returned (s, [])
  | ev :: rest =>
      first <- app_step ev s ;;
      later <- app_run rest (fst first) ;;
      Returned (fst later, snd first ++ snd later)
  end.

End Form.

(** ** Notions on forms *)

(** A field [parseXML] lets through: it has attributes and its type is one
    of the four. *)
Definition supported (field : Field) : Prop :=
  exists attrs,
    dollar field = Some attrs
    /\ includes validFieldTypes (attr_type attrs) = true.

(** A field with the given key that asks to be required. *)
Definition required_at (k : string) (field : Field) : Prop :=
  exists attrs,
    dollar field = Some attrs
    /\ key_of (attr_id attrs) = k
    /\ attr_required attrs = Some "true".


(** The rule a required field asks for: a date for [datetime], a string for
    the other types. *)
Definition rule_for (attrs : Attrs) : Rule :=
  if equals (attr_type attrs) "datetime"
  then YupDateRequired required_message
  else YupStringRequired required_message.

(** The document parsed: the fields read off the result. *)
Definition fields_of (form_field : option (list Field)) : list Field :=
  match form_field with
  | Some fields => fields
  | None => []
  end.

Definition is_submit (ev : AppEvent) : bool :=
  match ev with
  | Submit _ => true
  | _ => false
  end.

(** ** A sample document *)

(** The third form of sampleXMLs.txt as xml2js returns it, the last form of
    that file, and a radio field without choices. *)
Definition company_fields : list Field :=
  [ {| dollar := Some {| attr_id := Some "companyName"; attr_type := Some "text";
                         attr_label := Some "Company Name";
                         attr_required := Some "false" |};
       option_ := None |};
    {| dollar := Some {| attr_id := Some "foundingDate";
                         attr_type := Some "datetime";
                         attr_label := Some "Founding Date";
                         attr_required := Some "false" |};
       option_ := None |};
    {| dollar := Some {| attr_id := Some "companyType"; attr_type := Some "radio";
                         attr_label := Some "Company Type";
                         attr_required := Some "true" |};
       option_ := Some
         [ {| option_dollar := Some {| attr_value := Some "startup" |};
              option_text := Some "Startup" |};
           {| option_dollar := Some {| attr_value := Some "enterprise" |};
              option_text := Some "Enterprise" |};
           {| option_dollar := Some {| attr_value := Some "nonprofit" |};
              option_text := Some "Non-Profit" |} ] |};
    {| dollar := Some {| attr_id := Some "ceoSignature";
                         attr_type := Some "drawing";
                         attr_label := Some "CEO Signature";
                         attr_required := Some "false" |};
       option_ := None |} ].

Definition invalid_fields_sample : list Field :=
  [ {| dollar := Some {| attr_id := Some "invalidField";
                         attr_type := Some "unsupported";
                         attr_label := Some "Invalid Field";
                         attr_required := Some "true" |};
       option_ := None |} ].

Definition bare_radio : Field :=
  {| dollar := Some {| attr_id := Some "gender"; attr_type := Some "radio";
                       attr_label := Some "Gender";
                       attr_required := Some "true" |};
     option_ := None |}.

(** A parser that knows two documents. *)
Definition sample_parseString (xml : string) : Parse :=
  if String.eqb xml "company" then Parsed (Some company_fields)
  else if String.eqb xml "invalid" then Parsed (Some invalid_fields_sample)
  else if String.eqb xml "other root" then Parsed None
  else ParseError.

Definition sample_trim (text : string) : string :=
  if String.eqb text " " then EmptyString else text.

Definition sample_stringify (values : Obj string) : string := "{}".

Definition sample_set_under (prototype : Rule) (k : string) (rule : Rule)
    (own : Obj Rule) : outcome (Obj Rule) :=
  Returned (obj_set k rule own).

(** A form with a signature saved, and one with Formik's [setFieldValue]
    stored and the drawing of a field open. *)
Definition signed_app : App := setSignatureSaved true initial_app.

Definition signing_app : App :=
  setCurrentDrawingField (Some "ceoSignature")
    (setDrawingModalVisible true
       (setFormikSetFieldValue (Some SetFieldValue) initial_app)).

(** A drawing field without an [id]. *)
Definition unnamed_drawing : Field :=
  {| dollar := Some {| attr_id := None; attr_type := Some "drawing";
                       attr_label := Some "Signature";
                       attr_required := Some "true" |};
     option_ := None |}.

(** The canvas of [opened] after the first run of the effect. *)
Definition opened_canvas : @Canvas one_pixel :=
  @Build_Canvas one_pixel "white" "#000000" 1 "butt" "miter" [] "white".

(** * Properties *)

Section Properties.

Context {platform : Raster}.

(** ** The cells the effect and the render leave alone *)

Lemma paths_drawPaths (h : Hooks) : paths (drawPaths h) = paths h.
Proof. unfold drawPaths; destruct (canvasRef h); reflexivity. Qed.

Lemma currentPath_drawPaths (h : Hooks) : currentPath (drawPaths h) = currentPath h.
Proof. unfold drawPaths; destruct (canvasRef h); reflexivity. Qed.

Lemma panResponder_drawPaths (h : Hooks) : panResponder (drawPaths h) = panResponder h.
Proof. unfold drawPaths; destruct (canvasRef h); reflexivity. Qed.

Lemma render_again (h : Hooks) (responder : PanHandlers) :
  panResponder h = Some responder -> render h = h.
Proof. destruct h; simpl; intros ->; reflexivity. Qed.

Lemma styled_drawPaths (h : Hooks) : styled (drawPaths h) <-> styled h.
Proof.
  unfold styled; rewrite paths_drawPaths, currentPath_drawPaths; tauto.
Qed.

Lemma run_cons (ev : Event) (rest : list Event) (h : Hooks) :
  run (ev :: rest) h = (h' <- step ev h ;; run rest h').
Proof. reflexivity. Qed.

Lemma run_app (evs1 evs2 : list Event) (h : Hooks) :
  run (evs1 ++ evs2) h = (h' <- run evs1 h ;; run evs2 h').
Proof.
  revert h; induction evs1 as [|ev evs1 IH]; intros h; simpl; [reflexivity|].
  destruct (step ev h) as [h1|e]; simpl; [apply IH | reflexivity].
Qed.

(** ** What each event does, for a responder created in any render *)

Section Responder.

Variable captured : option Path.
Variable h : Hooks.
Hypothesis kept : panResponder h = Some (PanResponder_create captured).

Lemma step_Grant (evt : NativeEvent) :
  step (Grant evt) h = Returned (drawPaths (with_currentPath (Some (begun evt)) h)).
Proof.
  unfold step, handler; rewrite kept; simpl.
  rewrite render_again with (responder := PanResponder_create captured);
    [reflexivity | exact kept].
Qed.

Lemma step_Move_recording (evt : NativeEvent) (cur : Path) :
  currentPath h = Some cur ->
  step (Move evt) h
  = Returned (drawPaths (with_currentPath (Some (extended cur [evt])) h)).
Proof.
  intros Hcur; unfold step, handler; rewrite kept; simpl.
  rewrite Hcur; simpl.
  rewrite render_again with (responder := PanResponder_create captured);
    [reflexivity | exact kept].
Qed.

Lemma step_Move_idle (evt : NativeEvent) :
  currentPath h = None ->
  step (Move evt) h = Thrown (TypeError "Cannot read property 'points' of null").
Proof.
  intros Hcur; unfold step, handler; rewrite kept; simpl.
  rewrite Hcur; reflexivity.
Qed.

Lemma step_Terminate : step Terminate h = Returned h.
Proof. unfold step, handler; rewrite kept; reflexivity. Qed.

Lemma step_Release :
  step Release h
  = Returned match captured with
             | Some path =>
                 drawPaths (with_currentPath None (with_paths (paths h ++ [path]) h))
             | None => h
             end.
Proof.
  unfold step, handler; rewrite kept; simpl.
  destruct captured as [path|]; simpl; [|reflexivity].
  rewrite render_again with (responder := PanResponder_create (Some path));
    [reflexivity | exact kept].
Qed.

End Responder.

Lemma step_PressSave (h : Hooks) : step PressSave h = Returned h.
Proof. unfold step, handler; destruct (panResponder h); reflexivity. Qed.

Lemma step_PressClear (h : Hooks) :
  step PressClear h
  = Returned (drawPaths (render (with_currentPath None (with_paths [] h)))).
Proof. unfold step, handler; destruct (panResponder h); reflexivity. Qed.

(** ** The responder of every reachable state *)

Lemma panResponder_step (ev : Event) (h h' : Hooks) (responder : PanHandlers) :
  panResponder h = Some responder ->
  responder = PanResponder_create None
  \/ (exists path, responder = PanResponder_create (Some path)) ->
  step ev h = Returned h' ->
  panResponder h' = Some responder.
Proof.
  intros Hr Hshape Hstep.
  assert (Hk : exists captured, panResponder h = Some (PanResponder_create captured)).
  { destruct Hshape as [->|[path ->]]; eauto. }
  destruct Hk as [captured Hk].
  destruct ev as [evt|evt| | | | |canvas].
  - rewrite (@step_Grant _ _ Hk evt) in Hstep; injection Hstep as <-.
    rewrite panResponder_drawPaths; exact Hr.
  - destruct (currentPath h) as [cur|] eqn:Hcur.
    + rewrite (@step_Move_recording _ _ Hk evt _ Hcur) in Hstep; injection Hstep as <-.
      rewrite panResponder_drawPaths; exact Hr.
    + rewrite (@step_Move_idle _ _ Hk evt Hcur) in Hstep; discriminate.
  - rewrite (@step_Release _ _ Hk) in Hstep; injection Hstep as <-.
    destruct captured; [rewrite panResponder_drawPaths|]; exact Hr.
  - rewrite (@step_Terminate _ _ Hk) in Hstep; injection Hstep as <-; exact Hr.
  - rewrite step_PressClear in Hstep; injection Hstep as <-.
    rewrite panResponder_drawPaths; simpl. rewrite Hr; reflexivity.
  - rewrite step_PressSave in Hstep; injection Hstep as <-; exact Hr.
  - simpl in Hstep; injection Hstep as <-; exact Hr.
Qed.

(** The ref keeps the responder of the first render, whose [currentPath]
    was [null]. *)
Lemma first_render_responder (h : Hooks) :
  reachable h -> panResponder h = Some (PanResponder_create None).
Proof.
  induction 1 as [canvas|ev h h' _ IH Hstep].
  - unfold mount; rewrite panResponder_drawPaths; reflexivity.
  - eapply panResponder_step; eauto.
Qed.

(** ** The calls of a repaint and what they paint *)

Lemma calls_app (cs1 cs2 : list CanvasCall) (ctx : Canvas) :
  calls (cs1 ++ cs2) ctx = calls cs2 (calls cs1 ctx).
Proof. unfold calls; apply fold_left_app. Qed.

Lemma forEach_from_later (rest : list Point) :
  forall index,
    forEach_from (S index)
      (fun point index =>
         if Nat.eqb index 0
         then [MoveTo (x point) (y point)]
         else [LineTo (x point) (y point)]) rest
    = map (fun point => LineTo (x point) (y point)) rest.
Proof.
  induction rest as [|point rest IH]; intros index; simpl; [reflexivity|].
  rewrite IH; reflexivity.
Qed.

(** The loop over the points moves to the first and draws a line to each
    subsequent one. *)
Lemma forEach_points (pts : list Point) :
  forEach pts
    (fun point index =>
       if Nat.eqb index 0
       then [MoveTo (x point) (y point)]
       else [LineTo (x point) (y point)])
  = match pts with
    | [] => []
    | first :: rest =>
        MoveTo (x first) (y first)
        :: map (fun point => LineTo (x point) (y point)) rest
    end.
Proof.
  destruct pts as [|first rest]; [reflexivity|].
  unfold forEach; simpl; rewrite forEach_from_later; reflexivity.
Qed.

Lemma forEach_paths (ps : list Path) :
  forEach ps (fun path _ => draw_one path) = flat_map draw_one ps.
Proof.
  unfold forEach; generalize 0.
  induction ps as [|path ps IH]; intros index; simpl; [reflexivity|].
  rewrite IH; reflexivity.
Qed.

Lemma calls_lines (rest : list Point) :
  forall fs ss lw lc lj s px,
    calls (map (fun point => LineTo (x point) (y point)) rest)
          (Build_Canvas fs ss lw lc lj [s] px)
    = Build_Canvas fs ss lw lc lj [s ++ rest] px.
Proof.
  induction rest as [|[px0 py0] rest IH]; intros fs ss lw lc lj s px; simpl.
  - rewrite app_nil_r; reflexivity.
  - unfold calls in IH |- *; simpl; rewrite IH, <- app_assoc; reflexivity.
Qed.

(** One stroke: the state it leaves on the context and what it paints. *)
Lemma calls_draw_one (stroke : Path) (ctx : Canvas) :
  calls (draw_one stroke) ctx
  = Build_Canvas (fillStyle ctx) (color stroke) (width stroke) "round" "round"
      (spec_polyline (points stroke)) (spec_paint (pixels ctx) stroke).
Proof.
  unfold draw_one; rewrite !calls_app, forEach_points.
  destruct stroke as [[|[px0 py0] rest] col wid]; [reflexivity|].
  unfold calls at 2 3; simpl.
  change (fold_left (fun acc c => call c acc) ?cs ?c) with (calls cs c).
  rewrite calls_lines; reflexivity.
Qed.

Lemma pixels_strokes (ps : list Path) :
  forall ctx, pixels (calls (flat_map draw_one ps) ctx)
              = fold_left spec_paint ps (pixels ctx).
Proof.
  induction ps as [|stroke ps IH]; intros ctx; [reflexivity|].
  cbn [flat_map fold_left].
  rewrite calls_app, IH, calls_draw_one; reflexivity.
Qed.

(** A run of [drawPaths] paints what the specification says. *)
Lemma pixels_drawPaths_calls (canvas : Canvas) (ps : list Path) (cp : option Path) :
  pixels (calls (drawPaths_calls canvas ps cp) canvas)
  = spec_repaint ps cp (pixels canvas).
Proof.
  unfold drawPaths_calls, spec_repaint.
  rewrite !calls_app, forEach_paths.
  destruct cp as [stroke|].
  - rewrite calls_draw_one; cbn [pixels]; rewrite pixels_strokes; reflexivity.
  - change (calls [] ?c) with c; rewrite pixels_strokes; reflexivity.
Qed.

Lemma drawPaths_mounted (h : Hooks) (canvas : Canvas) :
  canvasRef h = Some canvas ->
  exists canvas', canvasRef (drawPaths h) = Some canvas'
                  /\ pixels canvas'
                     = spec_repaint (paths h) (currentPath h) (pixels canvas).
Proof.
  intros Hc; unfold drawPaths; rewrite Hc; simpl.
  eexists; split; [reflexivity | apply pixels_drawPaths_calls].
Qed.

Lemma drawPaths_unmounted (h : Hooks) :
  canvasRef h = None -> drawPaths h = h.
Proof. intros Hc; unfold drawPaths; rewrite Hc; reflexivity. Qed.

(** *** Sizes, and the fill that covers everything *)

Lemma spec_paint_size (stroke : Path) (p : Pixels) :
  px_width (spec_paint p stroke) = px_width p
  /\ px_height (spec_paint p stroke) = px_height p.
Proof. split; [apply stroke_path_width | apply stroke_path_height]. Qed.

Lemma spec_blank_size (p : Pixels) :
  px_width (spec_blank p) = px_width p /\ px_height (spec_blank p) = px_height p.
Proof. split; [apply fill_rect_width | apply fill_rect_height]. Qed.

Lemma fold_paint_size (ps : list Path) :
  forall p, px_width (fold_left spec_paint ps p) = px_width p
            /\ px_height (fold_left spec_paint ps p) = px_height p.
Proof.
  induction ps as [|stroke ps IH]; intros p; simpl; [split; reflexivity|].
  destruct (IH (spec_paint p stroke)) as [Hw Hh].
  destruct (spec_paint_size stroke p) as [Hw' Hh'].
  split; congruence.
Qed.

Lemma spec_repaint_size (ps : list Path) (cp : option Path) (p : Pixels) :
  px_width (spec_repaint ps cp p) = px_width p
  /\ px_height (spec_repaint ps cp p) = px_height p.
Proof.
  unfold spec_repaint.
  destruct (fold_paint_size ps (spec_blank p)) as [Hw Hh].
  destruct (spec_blank_size p) as [Hw' Hh'].
  destruct cp as [stroke|]; [|split; congruence].
  destruct (spec_paint_size stroke (fold_left spec_paint ps (spec_blank p))).
  split; congruence.
Qed.

Lemma spec_blank_same (p q : Pixels) :
  px_width p = px_width q -> px_height p = px_height q ->
  spec_blank p = spec_blank q.
Proof. intros Hw Hh; unfold spec_blank; apply fill_rect_covers; assumption. Qed.

Lemma spec_repaint_twice (ps : list Path) (cp : option Path) (p : Pixels) :
  spec_repaint ps cp (spec_repaint ps cp p) = spec_repaint ps cp p.
Proof.
  destruct (spec_repaint_size ps cp p) as [Hw Hh].
  unfold spec_repaint at 1 3.
  rewrite (spec_blank_same _ _ Hw Hh); reflexivity.
Qed.

(** ** The fixed style is kept, whatever the responder captured *)

Lemma fixed_style_begun (evt : NativeEvent) : fixed_style (begun evt).
Proof. split; reflexivity. Qed.

Lemma fixed_style_extended (stroke : Path) (evts : list NativeEvent) :
  fixed_style stroke -> fixed_style (extended stroke evts).
Proof. intros [Hc Hw]; split; simpl; assumption. Qed.

Lemma styled_step (captured : option Path) (ev : Event) (h h' : Hooks) :
  (forall path, captured = Some path -> fixed_style path) ->
  panResponder h = Some (PanResponder_create captured) ->
  styled h ->
  step ev h = Returned h' ->
  styled h'.
Proof.
  intros Hcap Hk [Hpaths Hcur] Hstep.
  destruct ev as [evt|evt| | | | |canvas].
  - rewrite (@step_Grant _ _ Hk evt) in Hstep; injection Hstep as <-.
    apply styled_drawPaths; split; simpl; [exact Hpaths|].
    intros stroke [= <-]; apply fixed_style_begun.
  - destruct (currentPath h) as [cur|] eqn:Ecur.
    + rewrite (@step_Move_recording _ _ Hk evt _ Ecur) in Hstep; injection Hstep as <-.
      apply styled_drawPaths; split; simpl; [exact Hpaths|].
      intros stroke [= <-]; apply fixed_style_extended, Hcur; reflexivity.
    + rewrite (@step_Move_idle _ _ Hk evt Ecur) in Hstep; discriminate.
  - rewrite (@step_Release _ _ Hk) in Hstep; injection Hstep as <-.
    destruct captured as [path|]; [|split; assumption].
    apply styled_drawPaths; split; simpl; [|discriminate].
    apply Forall_app; split; [exact Hpaths|].
    constructor; [apply Hcap; reflexivity | constructor].
  - rewrite (@step_Terminate _ _ Hk) in Hstep; injection Hstep as <-; split; assumption.
  - rewrite step_PressClear in Hstep; injection Hstep as <-.
    apply styled_drawPaths; split; simpl; [constructor | discriminate].
  - rewrite step_PressSave in Hstep; injection Hstep as <-; split; assumption.
  - simpl in Hstep; injection Hstep as <-; split; simpl; assumption.
Qed.

Lemma reachable_styled (h : Hooks) : reachable h -> styled h.
Proof.
  induction 1 as [canvas|ev h h' Hreach IH Hstep].
  - unfold mount; apply styled_drawPaths; split; simpl; [constructor | discriminate].
  - eapply styled_step with (captured := None); eauto using first_render_responder.
    discriminate.
Qed.

(** ** Runs of move events *)

Lemma extended_extended (stroke : Path) (evt : NativeEvent) (evts : list NativeEvent) :
  extended (extended stroke [evt]) evts = extended stroke (evt :: evts).
Proof. unfold extended; simpl; rewrite <- app_assoc; reflexivity. Qed.

Lemma run_moves (captured : option Path) (evts : list NativeEvent) :
  forall (h : Hooks) (cur : Path),
    panResponder h = Some (PanResponder_create captured) ->
    currentPath h = Some cur ->
    exists h', run (map Move evts) h = Returned h'
               /\ currentPath h' = Some (extended cur evts)
               /\ paths h' = paths h
               /\ panResponder h' = panResponder h.
Proof.
  induction evts as [|evt evts IH]; intros h cur Hk Hcur.
  - exists h; simpl; repeat split; [].
    rewrite Hcur; unfold extended; simpl; rewrite app_nil_r; destruct cur; reflexivity.
  - simpl map; rewrite run_cons, (@step_Move_recording _ _ Hk evt _ Hcur); cbn [bind].
    destruct (IH (drawPaths (with_currentPath (Some (extended cur [evt])) h))
                 (extended cur [evt])) as (h' & Hrun & Hc & Hp & Hr).
    + rewrite panResponder_drawPaths; exact Hk.
    + rewrite currentPath_drawPaths; reflexivity.
    + exists h'; split; [exact Hrun|]; split; [|split].
      * rewrite Hc, extended_extended; reflexivity.
      * rewrite Hp, paths_drawPaths; reflexivity.
      * rewrite Hr, panResponder_drawPaths; reflexivity.
Qed.

(** A gesture up to its last move: the stroke holds the point of the grant
    and one point per move, in the order of delivery. *)
Lemma run_gesture (captured : option Path) (h : Hooks)
    (evt : NativeEvent) (evts : list NativeEvent) :
  panResponder h = Some (PanResponder_create captured) ->
  exists h', run (Grant evt :: map Move evts) h = Returned h'
             /\ currentPath h' = Some (extended (begun evt) evts)
             /\ paths h' = paths h
             /\ panResponder h' = panResponder h.
Proof.
  intros Hk; rewrite run_cons, (@step_Grant _ _ Hk evt); cbn [bind].
  destruct (@run_moves captured evts
              (drawPaths (with_currentPath (Some (begun evt)) h)) (begun evt))
    as (h' & Hrun & Hc & Hp & Hr).
  - rewrite panResponder_drawPaths; exact Hk.
  - rewrite currentPath_drawPaths; reflexivity.
  - exists h'; split; [exact Hrun|]; split; [exact Hc|]; split.
    + rewrite Hp, paths_drawPaths; reflexivity.
    + rewrite Hr, panResponder_drawPaths; reflexivity.
Qed.

(** ** Ordered runs never throw *)

Lemma ordered_weaken (evs : list Event) :
  forall recording, ordered false evs = true -> ordered recording evs = true.
Proof.
  induction evs as [|ev rest IH]; intros recording; simpl; [trivial|].
  destruct ev; auto; discriminate.
Qed.

Lemma run_ordered (captured : option Path) (evs : list Event) :
  forall h : Hooks,
    panResponder h = Some (PanResponder_create captured) ->
    ordered (is_some (currentPath h)) evs = true ->
    exists h', run evs h = Returned h'.
Proof.
  assert (Hshape : PanResponder_create captured = PanResponder_create None
                   \/ (exists path, PanResponder_create captured
                                    = PanResponder_create (Some path))).
  { destruct captured as [path|]; eauto. }
  induction evs as [|ev rest IH]; intros h Hk Hord; [exists h; reflexivity|].
  rewrite run_cons.
  destruct ev as [evt|evt| | | | |canvas]; simpl in Hord.
  - rewrite (@step_Grant _ _ Hk evt); cbn [bind]; apply IH.
    + rewrite panResponder_drawPaths; exact Hk.
    + rewrite currentPath_drawPaths; exact Hord.
  - destruct (currentPath h) as [cur|] eqn:Ecur; simpl in Hord; [|discriminate].
    rewrite (@step_Move_recording _ _ Hk evt _ Ecur); cbn [bind]; apply IH.
    + rewrite panResponder_drawPaths; exact Hk.
    + rewrite currentPath_drawPaths; exact Hord.
  - rewrite (@step_Release _ _ Hk); cbn [bind].
    destruct captured as [path|]; apply IH.
    + rewrite panResponder_drawPaths; exact Hk.
    + rewrite currentPath_drawPaths; exact Hord.
    + exact Hk.
    + apply ordered_weaken; exact Hord.
  - rewrite (@step_Terminate _ _ Hk); cbn [bind]; apply IH; [exact Hk|].
    apply ordered_weaken; exact Hord.
  - rewrite step_PressClear; cbn [bind]; apply IH.
    + rewrite panResponder_drawPaths; simpl; rewrite Hk; reflexivity.
    + rewrite currentPath_drawPaths; exact Hord.
  - rewrite step_PressSave; cbn [bind]; apply IH; assumption.
  - cbn [bind]; apply IH; assumption.
Qed.

(** ** The StrokeSet of the reachable states *)

Lemma reachable_paths (h : Hooks) : reachable h -> paths h = [].
Proof.
  induction 1 as [canvas|ev h h' Hreach IH Hstep].
  - unfold mount; rewrite paths_drawPaths; reflexivity.
  - pose proof (first_render_responder Hreach) as Hk.
    destruct ev as [evt|evt| | | | |canvas].
    + rewrite (@step_Grant _ _ Hk evt) in Hstep; injection Hstep as <-.
      rewrite paths_drawPaths; exact IH.
    + destruct (currentPath h) as [cur|] eqn:Ecur.
      * rewrite (@step_Move_recording _ _ Hk evt _ Ecur) in Hstep; injection Hstep as <-.
        rewrite paths_drawPaths; exact IH.
      * rewrite (@step_Move_idle _ _ Hk evt Ecur) in Hstep; discriminate.
    + rewrite (@step_Release _ _ Hk) in Hstep; injection Hstep as <-; exact IH.
    + rewrite (@step_Terminate _ _ Hk) in Hstep; injection Hstep as <-; exact IH.
    + rewrite step_PressClear in Hstep; injection Hstep as <-.
      rewrite paths_drawPaths; reflexivity.
    + rewrite step_PressSave in Hstep; injection Hstep as <-; exact IH.
    + simpl in Hstep; injection Hstep as <-; exact IH.
Qed.

(** ** The recorder *)

(** C1 (what the code does where the claim fails): in every reachable state
    the release handler is the closure of the first render, whose
    [currentPath] is [null]; so a complete gesture (grant, moves, release)
    leaves the StrokeSet as it was, empty, its length unchanged, and the
    ActiveStroke is still the stroke of the gesture, not [null]. *)
Theorem C1_release_commits_nothing (h : Hooks) (evt : NativeEvent)
    (evts : list NativeEvent) :
  reachable h ->
  exists h',
    run (Grant evt :: map Move evts ++ [Release]) h = Returned h'
    /\ paths h' = []
    /\ List.length (paths h') = List.length (paths h)
    /\ currentPath h' = Some (extended (begun evt) evts).
Proof.
  intros Hreach.
  pose proof (first_render_responder Hreach) as Hk.
  destruct (@run_gesture None h evt evts Hk) as (h1 & Hrun & Hc & Hp & Hr).
  exists h1.
  change (Grant evt :: map Move evts ++ [Release])
    with ((Grant evt :: map Move evts) ++ [Release]).
  rewrite run_app, Hrun; cbn [bind].
  rewrite Hk in Hr.
  rewrite run_cons, (@step_Release _ _ Hr); simpl.
  rewrite Hp, (reachable_paths Hreach); repeat split; exact Hc.
Qed.

(** C2 (amended): a gesture-cancel has no handler.  Whatever the responder
    captured, the termination of a gesture changes nothing: nothing is
    committed and the ActiveStroke is not reset; after a grant, one move and
    a termination the StrokeSet is what it was and the ActiveStroke holds
    exactly the two points. *)
Theorem C2_cancel_changes_nothing (captured : option Path) (h : Hooks)
    (e1 e2 : NativeEvent) :
  panResponder h = Some (PanResponder_create captured) ->
  step Terminate h = Returned h
  /\ exists h',
       run [Grant e1; Move e2; Terminate] h = Returned h'
       /\ paths h' = paths h
       /\ currentPath h' = Some (extended (begun e1) [e2])
       /\ List.length (points (extended (begun e1) [e2])) = 2.
Proof.
  intros Hk; split; [apply (@step_Terminate _ _ Hk)|].
  destruct (@run_gesture captured h e1 [e2] Hk) as (h1 & Hrun & Hc & Hp & Hr).
  exists h1.
  change [Grant e1; Move e2; Terminate]
    with ((Grant e1 :: map Move [e2]) ++ [Terminate]).
  rewrite run_app, Hrun; cbn [bind].
  rewrite Hk in Hr.
  rewrite run_cons, (@step_Terminate _ _ Hr); simpl.
  repeat split; assumption.
Qed.

(** C8: a move appends its point to the ActiveStroke when there is one and
    throws a TypeError when the ActiveStroke is [null], and only then; a
    run of events in gesture order never throws. *)
Theorem C8_move_needs_active_stroke (captured : option Path) (h : Hooks)
    (evt : NativeEvent) (evs : list Event) :
  panResponder h = Some (PanResponder_create captured) ->
  match currentPath h with
  | Some cur =>
      exists h', step (Move evt) h = Returned h'
                 /\ currentPath h' = Some (extended cur [evt])
                 /\ paths h' = paths h
  | None =>
      step (Move evt) h = Thrown (TypeError "Cannot read property 'points' of null")
  end
  /\ (ordered (is_some (currentPath h)) evs = true ->
      exists h', run evs h = Returned h').
Proof.
  intros Hk; split; [|apply (@run_ordered captured evs h Hk)].
  destruct (currentPath h) as [cur|] eqn:Ecur.
  - eexists; split; [apply (@step_Move_recording _ _ Hk evt _ Ecur)|].
    rewrite currentPath_drawPaths, paths_drawPaths; split; reflexivity.
  - apply (@step_Move_idle _ _ Hk evt Ecur).
Qed.

(** C10: in every reachable state each committed stroke and the
    ActiveStroke have colour ['black'] and width 2; a grant creates its
    stroke with them, and every event leads to a state where this still
    holds. *)
Theorem C10_fixed_style (h : Hooks) (evt : NativeEvent) :
  reachable h ->
  Forall fixed_style (paths h)
  /\ (forall stroke, currentPath h = Some stroke -> fixed_style stroke)
  /\ (exists h', step (Grant evt) h = Returned h'
                 /\ currentPath h' = Some (begun evt)
                 /\ color (begun evt) = "black" /\ width (begun evt) = 2%float)
  /\ (forall ev h', step ev h = Returned h' -> styled h').
Proof.
  intros Hreach.
  pose proof (first_render_responder Hreach) as Hk.
  destruct (reachable_styled Hreach) as [Hp Hc].
  split; [exact Hp|]; split; [exact Hc|]; split.
  - eexists; split; [apply (@step_Grant _ _ Hk evt)|].
    rewrite currentPath_drawPaths; repeat split.
  - intros ev h' Hstep; apply reachable_styled.
    eapply reachable_step; eauto.
Qed.

(** ** Save *)

(** C9: [saveDrawing] enqueues no update: pressing Save leaves every cell
    of the state, the StrokeSet and the ActiveStroke among them, as it
    was, whatever the encoder and the callbacks do. *)
Theorem C9_save_is_read_only (props : Props) (h : Hooks) :
  emitted props PressSave h = saveDrawing props h
  /\ handler PressSave h = []
  /\ exists h', step PressSave h = Returned h'
                /\ paths h' = paths h
                /\ currentPath h' = currentPath h
                /\ h' = h.
Proof.
  split; [reflexivity|]; split.
  - unfold handler; destruct (panResponder h); reflexivity.
  - exists h; rewrite step_PressSave; repeat split.
Qed.

(** C3 (amended): when the encoder throws, the error is logged and an alert
    is shown; when the surface is unavailable, save does nothing at all,
    without a notification.  In both cases neither [onSave] nor [onClose]
    is called and the state is unchanged. *)
Theorem C3_save_failure (props : Props) (h : Hooks) (cause : option JsError) :
  encoding_failure h = Some cause ->
  saveDrawing props h
  = match cause with
    | Some error =>
        [ ConsoleError "Error saving drawing:" error;
          AlertAlert "Error" "Could not save drawing" ]
    | None => []
    end
  /\ (forall dataURL, ~ In (OnSave dataURL) (saveDrawing props h))
  /\ ~ In OnClose (saveDrawing props h)
  /\ step PressSave h = Returned h.
Proof.
  unfold encoding_failure, saveDrawing; intros Hfail.
  destruct (canvasRef h) as [canvas|].
  - destruct (toDataURL canvas) as [dataURL|error]; [discriminate|].
    injection Hfail as <-.
    split; [reflexivity|]; split; [|split; [|apply step_PressSave]].
    + intros dataURL [H|[H|[]]]; discriminate.
    + intros [H|[H|[]]]; discriminate.
  - injection Hfail as <-.
    split; [reflexivity|]; split; [|split; [|apply step_PressSave]].
    + intros dataURL [].
    + intros [].
Qed.

(** ** The compositor *)

(** C5: on a mounted canvas a repaint paints, over the whole surface filled
    with the background colour, the strokes of the StrokeSet in insertion
    order and then the ActiveStroke if there is one, each as one polyline
    through its points with its own colour and width and round caps and
    joins; the calls of a stroke move to its first point and draw a line to
    each subsequent one. *)
Theorem C5_repaint_order (h : Hooks) (canvas : Canvas) :
  canvasRef h = Some canvas ->
  (exists canvas',
      canvasRef (drawPaths h) = Some canvas'
      /\ pixels canvas' = spec_repaint (paths h) (currentPath h) (pixels canvas))
  /\ (forall stroke,
        draw_one stroke
        = [ BeginPath; SetStrokeStyle (color stroke); SetLineWidth (width stroke);
            SetLineCap "round"; SetLineJoin "round" ]
          ++ match points stroke with
             | [] => []
             | first :: rest =>
                 MoveTo (x first) (y first)
                 :: map (fun point => LineTo (x point) (y point)) rest
             end
          ++ [ Stroke ]).
Proof.
  intros Hc; split; [apply drawPaths_mounted; exact Hc|].
  intros stroke; unfold draw_one; rewrite forEach_points; reflexivity.
Qed.

(** C6: a second repaint with the state unchanged leaves the surface as
    the first left it, pixel for pixel, and the strokes as they were. *)
Theorem C6_repaint_idempotent (h : Hooks) :
  option_map pixels (canvasRef (drawPaths (drawPaths h)))
  = option_map pixels (canvasRef (drawPaths h))
  /\ paths (drawPaths (drawPaths h)) = paths (drawPaths h)
  /\ currentPath (drawPaths (drawPaths h)) = currentPath (drawPaths h).
Proof.
  split; [|split; [apply paths_drawPaths | apply currentPath_drawPaths]].
  destruct (canvasRef h) as [canvas|] eqn:Hc.
  - destruct (drawPaths_mounted h Hc) as (c1 & Hc1 & Hp1).
    destruct (drawPaths_mounted (drawPaths h) Hc1) as (c2 & Hc2 & Hp2).
    rewrite Hc2, Hc1; simpl; f_equal.
    rewrite Hp2, paths_drawPaths, currentPath_drawPaths, Hp1.
    apply spec_repaint_twice.
  - rewrite !(drawPaths_unmounted h Hc); reflexivity.
Qed.

(** C4: Clear never throws; it empties the StrokeSet, sets the ActiveStroke
    to [null] and runs the repaint, after which a mounted surface is, pixel
    for pixel, the surface of a freshly mounted component of the same
    size: the background and nothing else. *)
Theorem C4_clear (h : Hooks) (fresh : Canvas) :
  exists h',
    step PressClear h = Returned h'
    /\ paths h' = []
    /\ currentPath h' = None
    /\ h' = drawPaths (render (with_currentPath None (with_paths [] h)))
    /\ match canvasRef h with
       | Some canvas =>
           px_width (pixels fresh) = px_width (pixels canvas) ->
           px_height (pixels fresh) = px_height (pixels canvas) ->
           option_map pixels (canvasRef h')
           = option_map pixels (canvasRef (mount (Some fresh)))
           /\ option_map pixels (canvasRef h') = Some (spec_blank (pixels canvas))
       | None => canvasRef h' = None
       end.
Proof.
  eexists; split; [apply step_PressClear|].
  rewrite paths_drawPaths, currentPath_drawPaths.
  split; [reflexivity|]; split; [reflexivity|]; split; [reflexivity|].
  destruct (canvasRef h) as [canvas|] eqn:Hc.
  - intros Hw Hh.
    destruct (drawPaths_mounted (render (with_currentPath None (with_paths [] h)))
                (canvas := canvas)) as (c1 & Hc1 & Hp1); [exact Hc|].
    destruct (drawPaths_mounted (with_canvasRef (Some fresh) (render initial_hooks))
                (canvas := fresh)) as (c2 & Hc2 & Hp2); [reflexivity|].
    unfold mount; rewrite Hc1, Hc2; simpl in *.
    rewrite Hp1, Hp2; unfold spec_repaint; simpl.
    split; [|reflexivity].
    f_equal; apply spec_blank_same; congruence.
  - rewrite drawPaths_unmounted; simpl; exact Hc.
Qed.


End Properties.

(** * The component on the one-pixel platform *)

Lemma C1_release_commits_nothing_witness :
  reachable opened
  /\ exists h',
       run (Grant (touch 10 10) :: map Move [touch 20 10; touch 20 20] ++ [Release])
           opened = Returned h'
       /\ paths h' = []
       /\ List.length (paths h') = List.length (paths opened)
       /\ currentPath h'
          = Some (extended (begun (touch 10 10)) [touch 20 10; touch 20 20]).
Proof.
  split; [apply reachable_mount|].
  apply (@C1_release_commits_nothing one_pixel opened (touch 10 10)
           [touch 20 10; touch 20 20]).
  apply reachable_mount.
Defined.

Lemma C2_cancel_changes_nothing_witness :
  panResponder opened = Some (PanResponder_create None)
  /\ step Terminate opened = Returned opened
  /\ exists h',
       run [Grant (touch 5 5); Move (touch 8 8); Terminate] opened = Returned h'
       /\ paths h' = paths opened
       /\ currentPath h' = Some (extended (begun (touch 5 5)) [touch 8 8])
       /\ List.length (points (extended (begun (touch 5 5)) [touch 8 8])) = 2.
Proof.
  split; [reflexivity|].
  apply (@C2_cancel_changes_nothing one_pixel None opened (touch 5 5) (touch 8 8)).
  reflexivity.
Defined.

(** After a grant at (5,5), a move to (8,8) and a termination, the StrokeSet
    does not hold one stroke of two points with the ActiveStroke [null]:
    the StrokeSet is empty and the ActiveStroke is the stroke. *)
Lemma C2_cancel_counterexample :
  ~ exists h',
      run [Grant (touch 5 5); Move (touch 8 8); Terminate] opened = Returned h'
      /\ (exists stroke, paths h' = [stroke] /\ List.length (points stroke) = 2)
      /\ currentPath h' = None.
Proof.
  intros (h' & Hrun & _ & Hnone).
  vm_compute in Hrun; injection Hrun as <-.
  discriminate Hnone.
Qed.

Lemma C3_save_failure_witness :
  encoding_failure remounted = Some (Some (HostError "nothing to encode"))
  /\ saveDrawing quiet_props remounted
     = [ ConsoleError "Error saving drawing:" (HostError "nothing to encode");
         AlertAlert "Error" "Could not save drawing" ]
  /\ (forall dataURL, ~ In (OnSave dataURL) (saveDrawing quiet_props remounted))
  /\ ~ In OnClose (saveDrawing quiet_props remounted)
  /\ step PressSave remounted = Returned remounted.
Proof.
  split; [reflexivity|].
  apply (@C3_save_failure one_pixel quiet_props remounted
           (Some (HostError "nothing to encode"))).
  reflexivity.
Defined.

(** With no surface, encoding cannot even start, and Save shows no
    alert: it emits nothing. *)
Lemma C3_unavailable_surface_counterexample :
  canvasRef (@mount one_pixel None) = None
  /\ encoding_failure (@mount one_pixel None) = Some None
  /\ ~ exists title message,
        In (AlertAlert title message) (saveDrawing quiet_props (@mount one_pixel None)).
Proof.
  split; [reflexivity|]; split; [reflexivity|].
  intros (title & message & []).
Qed.

Lemma C5_repaint_order_witness :
  canvasRef drawing = Some fresh_canvas
  /\ exists canvas',
       canvasRef (drawPaths drawing) = Some canvas'
       /\ pixels canvas'
          = spec_repaint (paths drawing) (currentPath drawing) (pixels fresh_canvas).
Proof.
  split; [reflexivity|].
  apply (proj1 (@C5_repaint_order one_pixel drawing fresh_canvas eq_refl)).
Defined.



Lemma C8_move_needs_active_stroke_witness :
  panResponder opened = Some (PanResponder_create None)
  /\ step (Move (touch 20 10)) opened
     = Thrown (TypeError "Cannot read property 'points' of null")
  /\ exists h',
       run [Grant (touch 10 10); Move (touch 20 10); Release; PressSave] opened
       = Returned h'.
Proof.
  split; [reflexivity|].
  destruct (@C8_move_needs_active_stroke one_pixel None opened (touch 20 10)
              [Grant (touch 10 10); Move (touch 20 10); Release; PressSave]
              eq_refl) as [Hmove Hrun].
  split; [exact Hmove | apply Hrun; reflexivity].
Defined.

Lemma C10_fixed_style_witness :
  reachable (drawPaths (with_currentPath (Some (begun (touch 10 10))) opened))
  /\ forall stroke,
       currentPath (drawPaths (with_currentPath (Some (begun (touch 10 10))) opened))
       = Some stroke ->
       fixed_style stroke.
Proof.
  assert (Hreach :
    reachable (drawPaths (with_currentPath (Some (begun (touch 10 10))) opened))).
  { apply (@reachable_step one_pixel (Grant (touch 10 10)) opened);
      [apply reachable_mount | reflexivity]. }
  split; [exact Hreach|].
  apply (@C10_fixed_style one_pixel _ (touch 1 1) Hreach).
Defined.

(** * Further properties of the component *)

Section MoreProperties.

Context {platform : Raster}.

Lemma reachable_run (evs : list Event) :
  forall h h' : Hooks, reachable h -> run evs h = Returned h' -> reachable h'.
Proof.
  induction evs as [|ev rest IH]; intros h h' Hreach Hrun.
  - injection Hrun as <-; exact Hreach.
  - rewrite run_cons in Hrun.
    destruct (step ev h) as [h1|e] eqn:Hstep; [|discriminate].
    apply (IH h1 h'); [|exact Hrun].
    eapply reachable_step; eassumption.
Qed.

(** X1: a grant followed by moves leaves, whatever the state before, an
    ActiveStroke whose points are the point of the grant and then the point
    of every move, one per move and in the order of delivery, with the
    fixed style; the StrokeSet is not touched. *)
Theorem X1_gesture_points (captured : option Path) (h : Hooks)
    (evt : NativeEvent) (evts : list NativeEvent) :
  panResponder h = Some (PanResponder_create captured) ->
  exists h',
    run (Grant evt :: map Move evts) h = Returned h'
    /\ currentPath h'
       = Some {| points := point_of evt :: map point_of evts;
                 color := "black"; width := 2 |}
    /\ (forall stroke, currentPath h' = Some stroke ->
        List.length (points stroke) = S (List.length evts))
    /\ paths h' = paths h.
Proof.
  intros Hk.
  destruct (@run_gesture _ captured h evt evts Hk) as (h' & Hrun & Hc & Hp & _).
  exists h'; split; [exact Hrun|]; split; [exact Hc|]; split; [|exact Hp].
  intros stroke Hs; rewrite Hc in Hs; injection Hs as <-.
  simpl; rewrite length_map; reflexivity.
Qed.

(** ** The surface follows the state *)

Lemma up_to_date_drawPaths (h : Hooks) : up_to_date (drawPaths h).
Proof.
  intros canvas' Hc'.
  destruct (canvasRef h) as [canvas|] eqn:Hc.
  - destruct (drawPaths_mounted h Hc) as (c1 & Hc1 & Hp1).
    rewrite Hc1 in Hc'; injection Hc' as <-.
    rewrite paths_drawPaths, currentPath_drawPaths, Hp1.
    symmetry; apply spec_repaint_twice.
  - rewrite (drawPaths_unmounted h Hc) in Hc'; congruence.
Qed.

Lemma up_to_date_step (captured : option Path) (ev : Event) (h h' : Hooks) :
  panResponder h = Some (PanResponder_create captured) ->
  swaps_canvas ev = false ->
  up_to_date h ->
  step ev h = Returned h' ->
  up_to_date h'.
Proof.
  intros Hk Hswap Hup Hstep.
  destruct ev as [evt|evt| | | | |canvas]; [| | | | | |discriminate Hswap].
  - rewrite (@step_Grant _ _ _ Hk evt) in Hstep; injection Hstep as <-.
    apply up_to_date_drawPaths.
  - destruct (currentPath h) as [cur|] eqn:Ecur.
    + rewrite (@step_Move_recording _ _ _ Hk evt _ Ecur) in Hstep; injection Hstep as <-.
      apply up_to_date_drawPaths.
    + rewrite (@step_Move_idle _ _ _ Hk evt Ecur) in Hstep; discriminate.
  - rewrite (@step_Release _ _ _ Hk) in Hstep; injection Hstep as <-.
    destruct captured; [apply up_to_date_drawPaths | exact Hup].
  - rewrite (@step_Terminate _ _ _ Hk) in Hstep; injection Hstep as <-; exact Hup.
  - rewrite step_PressClear in Hstep; injection Hstep as <-.
    apply up_to_date_drawPaths.
  - rewrite step_PressSave in Hstep; injection Hstep as <-; exact Hup.
Qed.

Lemma up_to_date_run (evs : list Event) :
  forall h h' : Hooks,
    reachable h ->
    up_to_date h ->
    forallb (fun ev => negb (swaps_canvas ev)) evs = true ->
    run evs h = Returned h' ->
    up_to_date h'.
Proof.
  induction evs as [|ev rest IH]; intros h h' Hreach Hup Hevs Hrun.
  - injection Hrun as <-; exact Hup.
  - rewrite run_cons in Hrun; simpl in Hevs.
    apply andb_prop in Hevs; destruct Hevs as [Hev Hrest].
    destruct (step ev h) as [h1|e] eqn:Hstep; [|discriminate].
    apply (IH h1 h'); [| |exact Hrest|exact Hrun].
    + eapply reachable_step; eassumption.
    + apply (@up_to_date_step None ev h h1);
        [apply first_render_responder; exact Hreach | | exact Hup | exact Hstep].
      destruct (swaps_canvas ev); [discriminate Hev | reflexivity].
Qed.

(** X2: as long as the host does not replace the canvas, the surface is
    never stale: after every run of events from the mount that returns,
    the mounted surface is the repaint of the present StrokeSet and
    ActiveStroke (every change of state has run the effect). *)
Theorem X2_surface_up_to_date (canvas : option Canvas) (evs : list Event)
    (h' : Hooks) :
  forallb (fun ev => negb (swaps_canvas ev)) evs = true ->
  run evs (mount canvas) = Returned h' ->
  forall canvas',
    canvasRef h' = Some canvas' ->
    pixels canvas' = spec_repaint (paths h') (currentPath h') (pixels canvas').
Proof.
  intros Hevs Hrun.
  apply (@up_to_date_run evs (mount canvas) h');
    [apply reachable_mount | apply up_to_date_drawPaths | exact Hevs | exact Hrun].
Qed.

(** X3: of two gestures in a row only the second is kept.  From every
    reachable state, after two complete gestures the StrokeSet is empty and
    the ActiveStroke is the stroke of the second gesture alone: the grant
    of the second replaced the stroke of the first, which the release had
    not committed. *)
Theorem X3_second_gesture_replaces_first (h : Hooks)
    (e1 e2 : NativeEvent) (es1 es2 : list NativeEvent) :
  reachable h ->
  exists h',
    run (gesture e1 es1 ++ gesture e2 es2) h = Returned h'
    /\ paths h' = []
    /\ currentPath h'
       = Some {| points := point_of e2 :: map point_of es2;
                 color := "black"; width := 2 |}.
Proof.
  assert (Hone : forall h0 e es,
    reachable h0 ->
    exists h1, run (gesture e es) h0 = Returned h1
               /\ currentPath h1 = Some (extended (begun e) es)).
  { intros h0 e es Hreach.
    pose proof (first_render_responder Hreach) as Hk.
    destruct (@run_gesture _ None h0 e es Hk) as (h1 & Hrun & Hc & _ & Hr).
    exists h1; split; [|exact Hc].
    unfold gesture.
    change (Grant e :: map Move es ++ [Release])
      with ((Grant e :: map Move es) ++ [Release]).
    rewrite run_app, Hrun; cbn [bind].
    rewrite Hk in Hr.
    rewrite run_cons, (@step_Release _ _ _ Hr); reflexivity. }
  intros Hreach.
  destruct (Hone h e1 es1 Hreach) as (h1 & Hrun1 & _).
  assert (Hreach1 : reachable h1) by (eapply reachable_run; eassumption).
  destruct (Hone h1 e2 es2 Hreach1) as (h2 & Hrun2 & Hc2).
  exists h2; rewrite run_app, Hrun1; cbn [bind].
  split; [exact Hrun2|]; split; [|exact Hc2].
  apply reachable_paths; eapply reachable_run; eassumption.
Qed.

(** X4: the order of what [saveDrawing] emits.  If [onClose] is called,
    the output starts with the call of [onSave], with the data URL the
    encoder returned for the mounted canvas and which returned, directly
    followed by the call of [onClose], and neither is called again.  If
    [onSave] is called, it is the first output and the only call of it.
    If the alert is shown, it is the last output, the logged error comes
    directly before it, and before these there are only callbacks. *)
Theorem X4_save_callbacks (props : Props) (h : Hooks) :
  (In OnClose (saveDrawing props h) ->
   exists canvas dataURL rest,
     canvasRef h = Some canvas
     /\ toDataURL canvas = Returned dataURL
     /\ onSave props dataURL = Returned tt
     /\ saveDrawing props h = OnSave dataURL :: OnClose :: rest
     /\ ~ In OnClose rest
     /\ (forall d, ~ In (OnSave d) rest))
  /\ (forall dataURL,
        In (OnSave dataURL) (saveDrawing props h) ->
        exists canvas rest,
          canvasRef h = Some canvas
          /\ toDataURL canvas = Returned dataURL
          /\ saveDrawing props h = OnSave dataURL :: rest
          /\ (forall d, ~ In (OnSave d) rest))
  /\ (forall title message,
        In (AlertAlert title message) (saveDrawing props h) ->
        exists before error,
          saveDrawing props h
          = before ++ [ ConsoleError "Error saving drawing:" error;
                        AlertAlert "Error" "Could not save drawing" ]
          /\ (forall o, In o before -> o = OnClose \/ exists d, o = OnSave d)).
Proof.
  unfold saveDrawing.
  destruct (canvasRef h) as [canvas|]; [|repeat split; intros; contradiction].
  destruct (toDataURL canvas) as [dataURL|error] eqn:Henc.
  - destruct (onSave props dataURL) as [[]|error] eqn:Hsave.
    + destruct (onClose props tt) as [[]|error] eqn:Hclose.
      * split; [|split].
        -- intros _; exists canvas, dataURL, []; repeat split; auto.
        -- intros d [[= <-]|[H|[]]]; [|discriminate].
           exists canvas, [OnClose]; repeat split; auto.
           intros d [H|[]]; discriminate.
        -- intros t m [H|[H|[]]]; discriminate.
      * split; [|split].
        -- intros _; exists canvas, dataURL.
           eexists; repeat split; eauto.
           ++ intros [H|[H|[]]]; discriminate.
           ++ intros d [H|[H|[]]]; discriminate.
        -- intros d [[= <-]|[H|[H|[H|[]]]]]; try discriminate.
           exists canvas; eexists; repeat split; eauto.
           intros d [H|[H|[H|[]]]]; discriminate.
        -- intros t m _; exists [OnSave dataURL; OnClose], error.
           split; [reflexivity|].
           intros o [<-|[<-|[]]]; eauto.
    + split; [|split].
      * intros [H|[H|[H|[]]]]; discriminate.
      * intros d [[= <-]|[H|[H|[]]]]; try discriminate.
        exists canvas; eexists; repeat split; eauto.
        intros d [H|[H|[]]]; discriminate.
      * intros t m _; exists [OnSave dataURL], error.
        split; [reflexivity|].
        intros o [<-|[]]; eauto.
  - split; [|split].
    + intros [H|[H|[]]]; discriminate.
    + intros d [H|[H|[]]]; discriminate.
    + intros t m _; exists [], error; split; [reflexivity|].
      intros o [].
Qed.

End MoreProperties.

(** * Properties of XMLFormRenderer *)

Section FormProperties.

Variable trim : string -> string.
Variable parseString : string -> Parse.
Variable JSON_stringify : Obj string -> string.
Variable set_under : Rule -> string -> Rule -> Obj Rule -> outcome (Obj Rule).

(** ** Objects *)

Lemma obj_get_set (V : Type) (k k' : string) (v : V) (o : Obj V) :
  obj_get k (obj_set k' v o) = if String.eqb k' k then Some v else obj_get k o.
Proof.
  induction o as [|[k0 v0] rest IH]; simpl; [reflexivity|].
  destruct (String.eqb k0 k') eqn:E0; simpl.
  - apply String.eqb_eq in E0; subst k0.
    destruct (String.eqb k' k); reflexivity.
  - rewrite IH.
    destruct (String.eqb k0 k) eqn:E1; [|reflexivity].
    apply String.eqb_eq in E1; subst k0.
    rewrite String.eqb_sym, E0; reflexivity.
Qed.

Lemma equals_true (v : option string) (t : string) :
  equals v t = true <-> v = Some t.
Proof.
  destruct v as [u|]; simpl; [|split; discriminate].
  rewrite String.eqb_eq; split; [intros ->; reflexivity | intros [= ->]; reflexivity].
Qed.

Lemma supported_type (attrs : Attrs) :
  includes validFieldTypes (attr_type attrs) = true ->
  attr_type attrs = Some "text" \/ attr_type attrs = Some "datetime"
  \/ attr_type attrs = Some "radio" \/ attr_type attrs = Some "drawing".
Proof.
  unfold includes; destruct (attr_type attrs) as [t|]; [|discriminate].
  simpl; intros H.
  repeat (apply orb_prop in H; destruct H as [H|H]);
    try discriminate; apply String.eqb_eq in H; subst t; auto.
Qed.

(** ** parseXML *)

Lemma invalid_fields_none (fields : list Field) :
  Forall supported fields -> invalid_fields fields = Returned [].
Proof.
  induction 1 as [|field rest (attrs & Hd & Hty) _ IH]; simpl; [reflexivity|].
  unfold dollar_of; rewrite Hd; simpl; rewrite IH; simpl; rewrite Hty; reflexivity.
Qed.

Lemma invalid_fields_empty (fields : list Field) :
  invalid_fields fields = Returned [] -> Forall supported fields.
Proof.
  induction fields as [|field rest IH]; simpl; [constructor|].
  unfold dollar_of; destruct (dollar field) as [attrs|] eqn:Hd; simpl; [|discriminate].
  destruct (invalid_fields rest) as [invalid|e]; simpl; [|discriminate].
  destruct (includes validFieldTypes (attr_type attrs)) eqn:Hty; simpl;
    [|discriminate].
  intros [= ->]; constructor; [exists attrs; auto | apply IH; reflexivity].
Qed.

Lemma not_blank (xmlInput : string) :
  String.eqb xmlInput EmptyString || String.eqb (trim xmlInput) EmptyString = false
  <-> xmlInput <> EmptyString /\ trim xmlInput <> EmptyString.
Proof.
  rewrite orb_false_iff, !String.eqb_neq; reflexivity.
Qed.

(** X5: a document [parseXML] accepts (it returns with no error set) was
    parsed without error, and every field it stores has attributes and one
    of the four supported types; the stored fields are those of the
    document, in its order, and the modal is opened. *)
Theorem X5_parseXML_accepts_supported (xmlInput : string) (s s' : App) :
  parseXML trim parseString xmlInput s = Returned s' ->
  formError s' = None ->
  exists form_field,
    parseString xmlInput = Parsed form_field
    /\ parsedFields s' = fields_of form_field
    /\ Forall supported (parsedFields s')
    /\ modalVisible s' = true
    /\ xmlInput <> EmptyString
    /\ trim xmlInput <> EmptyString.
Proof.
  unfold parseXML.
  destruct (String.eqb xmlInput EmptyString
            || String.eqb (trim xmlInput) EmptyString) eqn:Hblank.
  { intros [= <-]; simpl; discriminate. }
  apply not_blank in Hblank.
  destruct (parseString xmlInput) as [|form_field].
  { intros [= <-]; simpl; discriminate. }
  fold (fields_of form_field).
  destruct (invalid_fields (fields_of form_field)) as [invalid|e] eqn:Hinv;
    simpl; [|discriminate].
  destruct invalid as [|field invalid]; simpl.
  - intros [= <-] _; exists form_field; simpl.
    repeat split; try tauto.
    apply invalid_fields_empty; exact Hinv.
  - intros [= <-]; simpl; discriminate.
Qed.

(** X6: a document [parseXML] rejects changes nothing but the error: the
    form parsed before, the modal, the mode and the typed text stay as they
    were, and the error is one of the three messages. *)
Theorem X6_parseXML_rejection_keeps_form (xmlInput : string) (s s' : App)
    (message : string) :
  parseXML trim parseString xmlInput s = Returned s' ->
  formError s' = Some message ->
  s' = setFormError (Some message) s
  /\ parsedFields s' = parsedFields s
  /\ modalVisible s' = modalVisible s
  /\ (message = "XML input cannot be empty"
      \/ message = "Invalid XML format"
      \/ message = invalid_types_message).
Proof.
  unfold parseXML.
  destruct (String.eqb xmlInput EmptyString
            || String.eqb (trim xmlInput) EmptyString).
  { intros [= <-]; simpl; intros [= <-]; repeat split; auto. }
  destruct (parseString xmlInput) as [|form_field].
  { intros [= <-]; simpl; intros [= <-]; repeat split; auto. }
  destruct (invalid_fields _) as [invalid|e]; simpl; [|discriminate].
  destruct (Nat.ltb 0 (List.length invalid)).
  - intros [= <-]; simpl; intros [= <-]; repeat split; auto.
  - intros [= <-]; simpl; discriminate.
Qed.

(** X7: [parseXML] accepts every document that is not blank, parses, and
    has only supported fields, also one without a form root or without
    fields: then no error is set and the modal opens on an empty list. *)
Theorem X7_parseXML_accepts (xmlInput : string) (s : App)
    (form_field : option (list Field)) :
  xmlInput <> EmptyString ->
  trim xmlInput <> EmptyString ->
  parseString xmlInput = Parsed form_field ->
  Forall supported (fields_of form_field) ->
  parseXML trim parseString xmlInput s
  = Returned (setModalVisible true
                (setParsedFields (fields_of form_field) (setFormError None s)))
  /\ (form_field = None \/ form_field = Some [] ->
      exists s', parseXML trim parseString xmlInput s = Returned s'
                 /\ parsedFields s' = [] /\ formError s' = None
                 /\ modalVisible s' = true).
Proof.
  intros Hne Htrim Hparse Hsup.
  assert (Hrun : parseXML trim parseString xmlInput s
                 = Returned (setModalVisible true
                               (setParsedFields (fields_of form_field)
                                  (setFormError None s)))).
  { unfold parseXML.
    rewrite (proj2 (not_blank xmlInput) (conj Hne Htrim)), Hparse.
    fold (fields_of form_field).
    rewrite (invalid_fields_none Hsup); reflexivity. }
  split; [exact Hrun|].
  intros Hempty; eexists; split; [exact Hrun|].
  destruct Hempty as [-> | ->]; repeat split.
Qed.

(** ** The DrawingModal seen from the form *)

Lemma signatureSaved_parseXML (xmlInput : string) (s s' : App) :
  parseXML trim parseString xmlInput s = Returned s' ->
  signatureSaved s' = signatureSaved s.
Proof.
  unfold parseXML.
  destruct (String.eqb xmlInput EmptyString
            || String.eqb (trim xmlInput) EmptyString).
  { intros [= <-]; reflexivity. }
  destruct (parseString xmlInput) as [|form_field].
  { intros [= <-]; reflexivity. }
  destruct (invalid_fields _) as [invalid|e]; simpl; [|discriminate].
  destruct (Nat.ltb 0 (List.length invalid)); intros [= <-]; reflexivity.
Qed.

Lemma signatureSaved_step (ev : AppEvent) (s s' : App) (calls : list Call) :
  is_submit ev = false ->
  signatureSaved s = true ->
  app_step trim parseString JSON_stringify ev s = Returned (s', calls) ->
  signatureSaved s' = true.
Proof.
  intros Hev Hs.
  destruct ev as [| |text| | | |field| |dataURL|values]; simpl;
    try discriminate Hev.
  - destruct (parseXML trim parseString DEFAULT_XML_DATA s) as [s1|e] eqn:Hp;
      simpl; [|discriminate].
    intros [= <- <-]; simpl; rewrite (signatureSaved_parseXML _ _ Hp); exact Hs.
  - intros [= <- <-]; exact Hs.
  - intros [= <- <-]; exact Hs.
  - destruct (parseXML trim parseString (customXML s) s) as [s1|e] eqn:Hp;
      simpl; [|discriminate].
    intros [= <- <-]; rewrite (signatureSaved_parseXML _ _ Hp); exact Hs.
  - intros [= <- <-]; exact Hs.
  - intros [= <- <-]; exact Hs.
  - destruct (dollar_of field) as [attrs|e]; simpl; [|discriminate].
    intros [= <- <-]; exact Hs.
  - intros [= <- <-]; exact Hs.
  - unfold drawing_onSave.
    destruct (formikSetFieldValue s) as [[]|];
      destruct (currentDrawingField s) as [field|];
      try destruct (truthy (Some field));
      intros [= <- <-]; simpl; auto.
Qed.

(** X8: the flag [signatureSaved] is one for the whole form and only a
    submit clears it.  Once set it stays set through every run of events
    without a submit (closing the form, parsing another document, opening
    and cancelling the drawing), and then every drawing field, whichever it
    is and whatever its value, renders as saved. *)
Theorem X8_signatureSaved_persists (evs : list AppEvent) (s s' : App)
    (calls : list Call) :
  forallb (fun ev => negb (is_submit ev)) evs = true ->
  signatureSaved s = true ->
  app_run trim parseString JSON_stringify evs s = Returned (s', calls) ->
  signatureSaved s' = true
  /\ forall values touched errors field attrs,
       dollar field = Some attrs ->
       attr_type attrs = Some "drawing" ->
       renderField values touched errors (signatureSaved s') field
       = Returned (Some (DrawingWidget (attr_id attrs) (attr_label attrs)
                           "Signature Saved!"
                           (Some "Signature saved successfully!"))).
Proof.
  intros Hevs Hs Hrun.
  assert (Hsaved : signatureSaved s' = true).
  { revert s s' calls Hevs Hs Hrun.
    induction evs as [|ev rest IH]; intros s s' calls Hevs Hs; simpl.
    - intros [= <- <-]; exact Hs.
    - simpl in Hevs; apply andb_prop in Hevs; destruct Hevs as [Hev Hrest].
      destruct (app_step trim parseString JSON_stringify ev s)
        as [[s1 calls1]|e] eqn:Hstep; simpl; [|discriminate].
      destruct (app_run trim parseString JSON_stringify rest s1)
        as [[s2 calls2]|e] eqn:Hrest'; simpl; [|discriminate].
      intros [= <- <-].
      apply (IH s1 s2 calls2 Hrest); [|exact Hrest'].
      apply (@signatureSaved_step ev s s1 calls1); [|exact Hs|exact Hstep].
      destruct (is_submit ev); [discriminate Hev | reflexivity]. }
  split; [exact Hsaved|].
  intros values touched errors field attrs Hd Hty.
  unfold renderField, dollar_of; rewrite Hd; cbn [bind]; rewrite Hty, Hsaved; reflexivity.
Qed.

(** X9: a drawing field whose [id] is missing or empty can never receive a
    signature, and neither can any field while Formik's [setFieldValue] is
    not stored: opening the drawing for it and saving closes the modal, but
    no value is handed to Formik and [signatureSaved] is not set. *)
Theorem X9_unnamed_field_drops_image (s : App) (field : Field) (attrs : Attrs)
    (dataURL : string) :
  dollar field = Some attrs ->
  truthy (attr_id attrs) = false \/ formikSetFieldValue s = None ->
  exists s',
    app_run trim parseString JSON_stringify
      [ PressDrawing field; DrawingSave dataURL; DrawingClose ] s
    = Returned (s', [])
    /\ signatureSaved s' = signatureSaved s
    /\ drawingModalVisible s' = false
    /\ currentDrawingField s' = None.
Proof.
  intros Hd Hcase; simpl; unfold dollar_of; rewrite Hd; simpl.
  unfold drawing_onSave; simpl.
  destruct Hcase as [Hid|Hf].
  - destruct (formikSetFieldValue s) as [[]|];
      destruct (attr_id attrs) as [id|]; simpl in Hid |- *;
      try rewrite Hid; simpl; eexists; split; reflexivity || (repeat split).
  - rewrite Hf; simpl; eexists; split; [reflexivity | repeat split].
Qed.

(** ** What Formik is given *)

Lemma reduce_app (A B : Type) (f : B -> A -> outcome B) (xs ys : list A) :
  forall acc, reduce f (xs ++ ys) acc = (mid <- reduce f xs acc ;; reduce f ys mid).
Proof.
  induction xs as [|item xs IH]; intros acc; simpl; [reflexivity|].
  destruct (f acc item) as [acc'|e]; simpl; [apply IH | reflexivity].
Qed.

Lemma validationSchema_snoc (fields : list Field) (field : Field) (attrs : Attrs) :
  dollar field = Some attrs ->
  includes validFieldTypes (attr_type attrs) = true ->
  validationSchema set_under (fields ++ [field])
  = (schema <- validationSchema set_under fields ;;
     if equals (attr_required attrs) "true"
     then shape_assign set_under (key_of (attr_id attrs)) (rule_for attrs) schema
     else Returned schema).
Proof.
  intros Hd Hty; unfold validationSchema; rewrite reduce_app.
  match goal with
  | |- context [reduce ?f fields ?init] =>
      destruct (reduce f fields init) as [schema|e]
  end; simpl; [|reflexivity].
  unfold dollar_of; rewrite Hd; simpl.
  destruct (equals (attr_required attrs) "true"); [|reflexivity].
  unfold rule_for.
  destruct (supported_type attrs Hty) as [H|[H|[H|H]]]; rewrite H; simpl;
    match goal with
    | |- (x <- ?m ;; Returned x) = ?m => destruct m; reflexivity
    end.
Qed.



Lemma validationSchema_rules (fields : list Field) :
  Forall supported fields ->
  ~ Exists (required_at "__proto__") fields ->
  exists own,
    validationSchema set_under fields
    = Returned {| shape_own := own; shape_prototype := None |}
    /\ (forall k, obj_get k own <> None <-> Exists (required_at k) fields)
    /\ (forall k rule,
          obj_get k own = Some rule ->
          exists field attrs,
            In field fields /\ dollar field = Some attrs
            /\ key_of (attr_id attrs) = k
            /\ attr_required attrs = Some "true"
            /\ rule = rule_for attrs).
Proof.
  induction fields as [|field fields IH] using rev_ind; intros Hsup Hplain.
  - exists []; split; [reflexivity|]; split.
    + intros k; simpl; split; [congruence | intros H; inversion H].
    + intros k rule; discriminate.
  - apply Forall_app in Hsup; destruct Hsup as [Hfields Hfield].
    inversion Hfield as [|f l (attrs & Hd & Hty) _]; subst.
    rewrite Exists_app in Hplain.
    destruct (IH Hfields) as (own & Hrun & Hkeys & Hrules); [tauto|].
    rewrite (@validationSchema_snoc fields field attrs Hd Hty), Hrun; cbn [bind].
    destruct (equals (attr_required attrs) "true") eqn:Hreq.
    + apply equals_true in Hreq.
      assert (Hkey : String.eqb (key_of (attr_id attrs)) "__proto__" = false).
      { apply String.eqb_neq; intros Hk; apply Hplain; right.
        constructor; exists attrs; auto. }
      unfold shape_assign; rewrite Hkey; simpl.
      eexists; split; [reflexivity|]; split.
      * intros k; rewrite obj_get_set, Exists_app.
        destruct (String.eqb (key_of (attr_id attrs)) k) eqn:Ek.
        -- apply String.eqb_eq in Ek; split; [|congruence].
           intros _; right; constructor; exists attrs; auto.
        -- apply String.eqb_neq in Ek; rewrite Hkeys; split; [auto|].
           intros [H|H]; [exact H|].
           inversion H as [f l (a & Hd' & Hk' & _)|f l H']; subst;
             [congruence | inversion H'].
      * intros k rule; rewrite obj_get_set.
        destruct (String.eqb (key_of (attr_id attrs)) k) eqn:Ek.
        -- apply String.eqb_eq in Ek; intros [= <-].
           exists field, attrs; rewrite in_app_iff; simpl; auto 10.
        -- intros Hget; destruct (Hrules k rule Hget) as (f & a & Hin & H).
           exists f, a; rewrite in_app_iff; auto.
    + exists own; split; [reflexivity|]; split.
      * intros k; rewrite Exists_app, Hkeys; split; [auto|].
        intros [H|H]; [exact H|].
        inversion H as [f l (a & Hd' & _ & Hreq')|f l H']; subst;
          [|inversion H'].
        assert (a = attrs) by congruence; subst a.
        apply equals_true in Hreq'; congruence.
      * intros k rule Hget; destruct (Hrules k rule Hget) as (f & a & Hin & H).
        exists f, a; rewrite in_app_iff; auto.
Qed.

(** X12: for the fields of an accepted document of which no required field
    has the id ['__proto__'], the validation schema is built without error
    and keeps [Object.prototype]; it has a rule as own property under a key
    exactly when some field with that key has [required="true"], and every
    rule comes from such a field: a date rule from a [datetime] field, a
    string rule from the other types.  A required field with the id
    ['__proto__'] added at the end gets no rule: its rule becomes the
    prototype of the object and the own properties stay as they were. *)
Theorem X12_validationSchema_keys (fields : list Field) :
  Forall supported fields ->
  ~ Exists (required_at "__proto__") fields ->
  exists own,
    validationSchema set_under fields
    = Returned {| shape_own := own; shape_prototype := None |}
    /\ (forall k, obj_get k own <> None <-> Exists (required_at k) fields)
    /\ (forall k rule,
          obj_get k own = Some rule ->
          exists field attrs,
            In field fields /\ dollar field = Some attrs
            /\ key_of (attr_id attrs) = k
            /\ attr_required attrs = Some "true"
            /\ rule = rule_for attrs)
    /\ (forall field attrs,
          dollar field = Some attrs ->
          includes validFieldTypes (attr_type attrs) = true ->
          attr_id attrs = Some "__proto__" ->
          attr_required attrs = Some "true" ->
          validationSchema set_under (fields ++ [field])
          = Returned {| shape_own := own;
                        shape_prototype := Some (rule_for attrs) |}).
Proof.
  intros Hsup Hplain.
  destruct (validationSchema_rules Hsup Hplain) as (own & Hrun & Hkeys & Hrules).
  exists own; split; [exact Hrun|]; split; [exact Hkeys|]; split; [exact Hrules|].
  intros field attrs Hd Hty Hid Hreq.
  rewrite (@validationSchema_snoc fields field attrs Hd Hty), Hrun; cbn [bind].
  rewrite (proj2 (equals_true _ _) Hreq), Hid; reflexivity.
Qed.




(** ** What a field renders *)

Lemma choices_from_throws (id : option string) (value : Slot string)
    (options : list OptionNode) :
  forall index,
    (exists e, choices_from index id value options = Thrown e)
    <-> Exists (fun node => option_dollar node = None) options.
Proof.
  induction options as [|node rest IH]; intros index; simpl.
  - split; [intros [e He]; discriminate | intros H; inversion H].
  - rewrite Exists_cons, <- (IH (S index)).
    destruct (option_dollar node) as [attrs|].
    + destruct (choices_from (S index) id value rest) as [later|e]; simpl.
      * split; [intros [e He]; discriminate|].
        intros [H|[e He]]; discriminate.
      * split; [intros _; right; exists e; reflexivity|].
        intros _; exists e; reflexivity.
    + split; [intros _; left; reflexivity | intros _; eexists; reflexivity].
Qed.

(** X14: a field of an accepted document never renders as nothing (the
    default branch of the switch is not reached), and rendering it throws
    exactly in these cases: a text or datetime field without an [id]
    ([handleChange] is called with [undefined]), and a radio field that has
    no [option] children or has a child without attributes.  Drawing fields
    always render. *)
Theorem X14_renderField (values : Obj string) (touched : Obj bool)
    (errors : Obj string) (saved : bool) (field : Field) (attrs : Attrs) :
  dollar field = Some attrs ->
  includes validFieldTypes (attr_type attrs) = true ->
  renderField values touched errors saved field <> Returned None
  /\ ((exists e, renderField values touched errors saved field = Thrown e)
      <-> ((attr_type attrs = Some "text" \/ attr_type attrs = Some "datetime")
           /\ attr_id attrs = None)
          \/ (attr_type attrs = Some "radio"
              /\ (option_ field = None
                  \/ exists options,
                       option_ field = Some options
                       /\ Exists (fun node => option_dollar node = None) options))).
Proof.
  intros Hd Hty; unfold renderField, dollar_of; rewrite Hd; cbn [bind].
  destruct (supported_type attrs Hty) as [H|[H|[H|H]]]; rewrite H; simpl.
  - destruct (attr_id attrs) as [id|]; simpl.
    + split; [discriminate|].
      split; [intros [e He]; discriminate|].
      intros [[_ Hc]|[Hc _]]; discriminate.
    + split; [discriminate|].
      split; [intros _; left; auto | intros _; eexists; reflexivity].
  - destruct (attr_id attrs) as [id|]; simpl.
    + split; [discriminate|].
      split; [intros [e He]; discriminate|].
      intros [[_ Hc]|[Hc _]]; discriminate.
    + split; [discriminate|].
      split; [intros _; left; auto | intros _; eexists; reflexivity].
  - destruct (option_ field) as [options|].
    + pose proof (choices_from_throws (attr_id attrs)
                    (obj_read (key_of (attr_id attrs)) values) options 0) as Hthrows.
      destruct (choices_from 0 (attr_id attrs)
                  (obj_read (key_of (attr_id attrs)) values) options)
        as [choices|e]; simpl.
      * split; [discriminate|].
        split; [intros [e He]; discriminate|].
        intros [[[Hc|Hc] _]|[_ [Hnone|(options' & [= <-] & Hex)]]];
          try discriminate.
        apply Hthrows in Hex; destruct Hex as [e He]; discriminate.
      * split; [discriminate|].
        split; [|intros _; exists e; reflexivity].
        intros _; right; split; [reflexivity|]; right; exists options.
        split; [reflexivity|]; apply Hthrows; exists e; reflexivity.
    + split; [discriminate|].
      split; [intros _; right; auto | intros _; eexists; reflexivity].
  - split; [discriminate|].
    split; [intros [e He]; discriminate|].
    intros [[[Hc|Hc] _]|[Hc _]]; discriminate.
Qed.

End FormProperties.

(** ** Save, from the canvas to Formik *)

Section SaveFlow.

Context {platform : Raster}.

(** X10: a save that succeeds reaches Formik.  With a mounted canvas whose
    encoder returns, Formik's [setFieldValue] stored and a drawing field
    with a non-empty id open, pressing Save makes exactly one call of
    [setFieldValue], with that id and the data URL of the surface, sets
    [signatureSaved], hides the DrawingModal and forgets the field, and
    changes nothing else of the form; the strokes stay as they were. *)
Theorem X10_save_reaches_formik (h : Hooks) (canvas : Canvas) (s : App)
    (field dataURL : string) :
  canvasRef h = Some canvas ->
  toDataURL canvas = Returned dataURL ->
  formikSetFieldValue s = Some SetFieldValue ->
  currentDrawingField s = Some field ->
  field <> EmptyString ->
  press_save h s
  = (setCurrentDrawingField None
       (setDrawingModalVisible false (setSignatureSaved true s)),
     [ CallSetFieldValue field dataURL ])
  /\ step PressSave h = Returned h.
Proof.
  intros Hc Henc Hf Hcur Hne; split; [|apply step_PressSave].
  unfold press_save, saveDrawing; rewrite Hc, Henc; simpl.
  unfold drawing_onSave; rewrite Hf, Hcur; simpl.
  apply String.eqb_neq in Hne; rewrite Hne; reflexivity.
Qed.

(** X11: a save that fails is not seen by the form.  When the canvas is
    not mounted or the encoder throws, pressing Save calls nothing of
    Formik and leaves the state of the form as it was: the DrawingModal
    stays open and no signature counts as saved. *)
Theorem X11_failed_save_keeps_form (h : Hooks) (s : App)
    (cause : option JsError) :
  encoding_failure h = Some cause ->
  press_save h s = (s, []).
Proof.
  unfold encoding_failure, press_save, saveDrawing.
  destruct (canvasRef h) as [canvas|]; [|reflexivity].
  destruct (toDataURL canvas) as [dataURL|error]; [discriminate | reflexivity].
Qed.

End SaveFlow.

(** * The further properties on samples *)

Lemma X1_gesture_points_witness :
  panResponder opened = Some (PanResponder_create None)
  /\ exists h',
       run (Grant (touch 10 10) :: map Move [touch 20 10; touch 20 20]) opened
       = Returned h'
       /\ currentPath h'
          = Some {| points := [ {| x := 10; y := 10 |}; {| x := 20; y := 10 |};
                                {| x := 20; y := 20 |} ];
                    color := "black"; width := 2 |}.
Proof.
  split; [reflexivity|].
  destruct (@X1_gesture_points one_pixel None opened (touch 10 10)
              [touch 20 10; touch 20 20] eq_refl) as (h' & Hrun & Hc & _).
  exists h'; split; [exact Hrun | exact Hc].
Defined.

Lemma X2_surface_up_to_date_witness :
  run [Grant (touch 0.5 0.5)] opened
  = Returned (drawPaths (with_currentPath (Some (begun (touch 0.5 0.5))) opened))
  /\ forall canvas',
       canvasRef (drawPaths (with_currentPath (Some (begun (touch 0.5 0.5))) opened))
       = Some canvas' ->
       pixels canvas'
       = spec_repaint [] (Some (begun (touch 0.5 0.5))) (pixels canvas').
Proof.
  split; [reflexivity|].
  apply (@X2_surface_up_to_date one_pixel (Some fresh_canvas)
           [Grant (touch 0.5 0.5)]
           (drawPaths (with_currentPath (Some (begun (touch 0.5 0.5))) opened))
           eq_refl eq_refl).
Defined.

Lemma X3_second_gesture_replaces_first_witness :
  reachable opened
  /\ exists h',
       run (gesture (touch 1 1) [touch 2 2] ++ gesture (touch 5 5) [touch 6 6])
           opened
       = Returned h'
       /\ paths h' = []
       /\ currentPath h'
          = Some {| points := [ {| x := 5; y := 5 |}; {| x := 6; y := 6 |} ];
                    color := "black"; width := 2 |}.
Proof.
  split; [apply reachable_mount|].
  apply (@X3_second_gesture_replaces_first one_pixel opened (touch 1 1) (touch 5 5)
           [touch 2 2] [touch 6 6]).
  apply reachable_mount.
Defined.

Lemma X5_parseXML_accepts_supported_witness :
  parseXML sample_trim sample_parseString "company" initial_app
  = Returned (setModalVisible true (setParsedFields company_fields initial_app))
  /\ Forall supported company_fields.
Proof.
  split; [reflexivity|].
  destruct (@X5_parseXML_accepts_supported sample_trim sample_parseString
              "company" initial_app
              (setModalVisible true (setParsedFields company_fields initial_app))
              eq_refl eq_refl) as (form_field & _ & _ & Hsup & _).
  exact Hsup.
Defined.

Lemma X6_parseXML_rejection_keeps_form_witness :
  parseXML sample_trim sample_parseString "invalid"
    (setParsedFields company_fields initial_app)
  = Returned (setFormError (Some invalid_types_message)
                (setParsedFields company_fields initial_app))
  /\ parsedFields (setFormError (Some invalid_types_message)
                     (setParsedFields company_fields initial_app))
     = company_fields.
Proof.
  split; [reflexivity|].
  apply (@X6_parseXML_rejection_keeps_form sample_trim sample_parseString
           "invalid" (setParsedFields company_fields initial_app)
           (setFormError (Some invalid_types_message)
              (setParsedFields company_fields initial_app))
           invalid_types_message eq_refl eq_refl).
Defined.

Lemma X7_parseXML_accepts_witness :
  sample_parseString "other root" = Parsed None
  /\ exists s',
       parseXML sample_trim sample_parseString "other root" initial_app
       = Returned s'
       /\ parsedFields s' = [] /\ formError s' = None /\ modalVisible s' = true.
Proof.
  split; [reflexivity|].
  apply (@X7_parseXML_accepts sample_trim sample_parseString "other root"
           initial_app None);
    [discriminate | discriminate | reflexivity | constructor | left; reflexivity].
Defined.

Lemma X8_signatureSaved_persists_witness :
  app_run sample_trim sample_parseString sample_stringify
    [ PressClose; ChangeText "company"; PressParse ] signed_app
  = Returned (setModalVisible true
                (setParsedFields company_fields
                   (setCustomXML "company" signed_app)), [])
  /\ signatureSaved (setModalVisible true
                       (setParsedFields company_fields
                          (setCustomXML "company" signed_app))) = true.
Proof.
  split; [reflexivity|].
  apply (@X8_signatureSaved_persists sample_trim sample_parseString
           sample_stringify
           [ PressClose; ChangeText "company"; PressParse ] signed_app
           (setModalVisible true
              (setParsedFields company_fields (setCustomXML "company" signed_app)))
           [] eq_refl eq_refl eq_refl).
Defined.

Lemma X9_unnamed_field_drops_image_witness :
  truthy (attr_id {| attr_id := None; attr_type := Some "drawing";
                     attr_label := Some "Signature";
                     attr_required := Some "true" |}) = false
  /\ exists s',
       app_run sample_trim sample_parseString sample_stringify
         [ PressDrawing unnamed_drawing; DrawingSave "data:,white"; DrawingClose ]
         signing_app
       = Returned (s', [])
       /\ signatureSaved s' = signatureSaved signing_app
       /\ drawingModalVisible s' = false
       /\ currentDrawingField s' = None.
Proof.
  split; [reflexivity|].
  apply (@X9_unnamed_field_drops_image sample_trim sample_parseString
           sample_stringify signing_app unnamed_drawing _ "data:,white" eq_refl).
  left; reflexivity.
Defined.

Lemma X10_save_reaches_formik_witness :
  canvasRef opened = Some opened_canvas
  /\ toDataURL opened_canvas = Returned "data:,white"
  /\ press_save opened signing_app
     = (setCurrentDrawingField None
          (setDrawingModalVisible false (setSignatureSaved true signing_app)),
        [ CallSetFieldValue "ceoSignature" "data:,white" ])
  /\ step PressSave opened = Returned opened.
Proof.
  split; [reflexivity|]; split; [reflexivity|].
  apply (@X10_save_reaches_formik one_pixel opened opened_canvas signing_app
           "ceoSignature" "data:,white" eq_refl eq_refl eq_refl eq_refl).
  discriminate.
Defined.

Lemma X11_failed_save_keeps_form_witness :
  encoding_failure remounted = Some (Some (HostError "nothing to encode"))
  /\ press_save remounted signing_app = (signing_app, []).
Proof.
  split; [reflexivity|].
  apply (@X11_failed_save_keeps_form one_pixel remounted signing_app
           (Some (HostError "nothing to encode")) eq_refl).
Defined.

Lemma company_fields_supported : Forall supported company_fields.
Proof.
  repeat constructor; eexists; split; reflexivity.
Defined.

Lemma company_fields_plain : ~ Exists (required_at "__proto__") company_fields.
Proof.
  intros H; apply Exists_exists in H.
  destruct H as (field & Hin & attrs & Hd & Hk & _).
  simpl in Hin; destruct Hin as [<-|[<-|[<-|[<-|[]]]]];
    simpl in Hd; injection Hd as <-; discriminate Hk.
Defined.

Lemma X12_validationSchema_keys_witness :
  Forall supported company_fields
  /\ ~ Exists (required_at "__proto__") company_fields
  /\ exists own,
       validationSchema sample_set_under company_fields
       = Returned {| shape_own := own; shape_prototype := None |}
       /\ (forall k, obj_get k own <> None
                     <-> Exists (required_at k) company_fields).
Proof.
  split; [exact company_fields_supported|].
  split; [exact company_fields_plain|].
  destruct (@X12_validationSchema_keys sample_set_under company_fields
              company_fields_supported company_fields_plain)
    as (own & Hrun & Hkeys & _).
  exists own; split; [exact Hrun | exact Hkeys].
Defined.


Lemma X14_renderField_witness :
  dollar bare_radio
  = Some {| attr_id := Some "gender"; attr_type := Some "radio";
            attr_label := Some "Gender"; attr_required := Some "true" |}
  /\ supported bare_radio
  /\ exists e, renderField [] [] [] false bare_radio = Thrown e.
Proof.
  split; [reflexivity|]; split; [eexists; split; reflexivity|].
  apply (proj2 (@X14_renderField [] [] [] false bare_radio _ eq_refl eq_refl)).
  right; split; [reflexivity | left; reflexivity].
Defined.
